(** * runner.py: a local judge for C++ solutions

    A shallow embedding of [runner.py] (argument validation, build step,
    testcase loader, per-testcase execution, summary) together with the
    properties of the harness that the specification states.

    Python values are modelled as the code meets them: a [str] is a list of
    Unicode code points, [bytes] a list of bytes, a [dict] an association list
    in insertion order.  The file system, the compiler and the compiled
    candidate are external: they are gathered in the record [world]. *)

From Stdlib Require Import ZArith NArith List Bool Lia String Ascii.
From Stdlib Require Import QArith.
From Stdlib Require Import Decimal DecimalNat.
From Stdlib Require Import Sorting.Mergesort Sorting.Sorted Sorting.Permutation.
From Stdlib Require Import Structures.Orders.
Import ListNotations.

Local Open Scope N_scope.
Local Open Scope list_scope.

(* ================================================================== *)
(** ** Text and bytes *)

Module Text.

(** A Python [str]: a sequence of Unicode code points. *)
Definition str := list N.

(** A Python [bytes] object: each element is below 256. *)
Definition bytes := list N.

(** An ASCII literal as a [str] (or as [bytes]); only used to write constants
    such as ["input"] in a readable way. *)
Definition lit (s : string) : list N :=
  map N_of_ascii (list_ascii_of_string s).

Fixpoint str_eqb (a b : str) : bool :=
  match a, b with
  | [], [] => true
  | x :: a', y :: b' => (x =? y) && str_eqb a' b'
  | _, _ => false
  end.

(** Characters removed by [str.strip()] without argument: the code points for
    which CPython's [_PyUnicode_IsWhitespace] holds. *)
Definition is_space (c : N) : bool :=
  ((9 <=? c) && (c <=? 13)) || ((28 <=? c) && (c <=? 32))
  || (c =? 133) || (c =? 160) || (c =? 5760)
  || ((8192 <=? c) && (c <=? 8202))
  || (c =? 8232) || (c =? 8233) || (c =? 8239) || (c =? 8287) || (c =? 12288).

Fixpoint lstrip (s : str) : str :=
  match s with
  | [] => []
  | c :: s' => if is_space c then lstrip s' else s
  end.

Fixpoint rstrip (s : str) : str :=
  match s with
  | [] => []
  | c :: s' =>
      match rstrip s' with
      | [] => if is_space c then [] else [c]
      | r => c :: r
      end
  end.

(** [s.strip()] *)
Definition strip (s : str) : str := rstrip (lstrip s).

(** [s.split("\n\n")]: cut at each non-overlapping occurrence of two line
    feeds, scanning from the left.  The result is never empty. *)
Definition push (c : N) (parts : list str) : list str :=
  match parts with
  | [] => [[c]]
  | p :: ps => (c :: p) :: ps
  end.

Fixpoint split_blank (s : str) : list str :=
  match s with
  | [] => [[]]
  | c :: rest =>
      match rest with
      | c2 :: rest2 =>
          if (c =? 10) && (c2 =? 10) then [] :: split_blank rest2
          else push c (split_blank rest)
      | [] => [[c]]
      end
  end.

(** [str(i)] for a natural number: its decimal digits. *)
Fixpoint digits (d : Decimal.uint) : str :=
  match d with
  | Nil => []
  | D0 d => 48 :: digits d
  | D1 d => 49 :: digits d
  | D2 d => 50 :: digits d
  | D3 d => 51 :: digits d
  | D4 d => 52 :: digits d
  | D5 d => 53 :: digits d
  | D6 d => 54 :: digits d
  | D7 d => 55 :: digits d
  | D8 d => 56 :: digits d
  | D9 d => 57 :: digits d
  end.

Definition str_of_nat (n : nat) : str := digits (Nat.to_uint n).

(** *** UTF-8, the default codec of [bytes.decode()] and [str.encode()] *)

Definition is_cont (b : N) : bool := (128 <=? b) && (b <=? 191).

(** [b.decode()] with the default arguments (["utf-8"], ["strict"]): [None]
    stands for [UnicodeDecodeError].  Overlong forms, surrogates and code
    points above U+10FFFF are rejected, as CPython does. *)
Fixpoint utf8_decode (bs : bytes) : option str :=
  match bs with
  | [] => Some []
  | b0 :: r0 =>
      if b0 <? 128 then option_map (cons b0) (utf8_decode r0)
      else if (194 <=? b0) && (b0 <=? 223) then
        match r0 with
        | b1 :: r1 =>
            if is_cont b1
            then option_map (cons ((b0 - 192) * 64 + (b1 - 128))) (utf8_decode r1)
            else None
        | _ => None
        end
      else if (224 <=? b0) && (b0 <=? 239) then
        match r0 with
        | b1 :: b2 :: r2 =>
            let c := (b0 - 224) * 4096 + (b1 - 128) * 64 + (b2 - 128) in
            if is_cont b1 && is_cont b2 && (2048 <=? c)
               && negb ((55296 <=? c) && (c <=? 57343))
            then option_map (cons c) (utf8_decode r2)
            else None
        | _ => None
        end
      else if (240 <=? b0) && (b0 <=? 244) then
        match r0 with
        | b1 :: b2 :: b3 :: r3 =>
            let c := (b0 - 240) * 262144 + (b1 - 128) * 4096
                     + (b2 - 128) * 64 + (b3 - 128) in
            if is_cont b1 && is_cont b2 && is_cont b3
               && (65536 <=? c) && (c <=? 1114111)
            then option_map (cons c) (utf8_decode r3)
            else None
        | _ => None
        end
      else None
  end.

(** [s.encode()]: [None] stands for [UnicodeEncodeError] (a lone surrogate). *)
Definition utf8_encode_char (c : N) : option bytes :=
  if c <? 128 then Some [c]
  else if c <? 2048 then Some [192 + c / 64; 128 + c mod 64]
  else if (55296 <=? c) && (c <=? 57343) then None
  else if c <? 65536 then
    Some [224 + c / 4096; 128 + (c / 64) mod 64; 128 + c mod 64]
  else if c <=? 1114111 then
    Some [240 + c / 262144; 128 + (c / 4096) mod 64;
          128 + (c / 64) mod 64; 128 + c mod 64]
  else None.

Fixpoint utf8_encode (s : str) : option bytes :=
  match s with
  | [] => Some []
  | c :: s' =>
      match utf8_encode_char c, utf8_encode s' with
      | Some b, Some bs => Some (b ++ bs)
      | _, _ => None
      end
  end.

(** Order of [str] under [<]: code point by code point, a proper prefix
    being smaller. *)
Fixpoint str_leb (a b : str) : bool :=
  match a, b with
  | [], _ => true
  | _ :: _, [] => false
  | x :: a', y :: b' =>
      if x <? y then true else if y <? x then false else str_leb a' b'
  end.

End Text.
Import Text.

(* ================================================================== *)
(** ** Values, testcases and the outside world *)

(** Keys of the unpacked archive: MessagePack strings, binary blobs or
    integers (CompetiTest numbers its testcases). *)
Inductive pykey :=
| KStr (s : str)
| KBytes (b : bytes)
| KInt (z : Z).

(** Values found under the keys of one archive entry. *)
Inductive pyval :=
| VNone
| VInt (z : Z)
| VStr (s : str)
| VBytes (b : bytes).

(** A Python [dict], in insertion order. *)
Definition dict (K V : Type) := list (K * V).

(** The object returned by [umsgpack.unpack]: id -> (field -> value). *)
Definition archive := dict pykey (dict pykey pyval).

(** A field of a loaded testcase, after [x.decode() if isinstance(x, bytes)
    else x]: never [bytes]. *)
Inductive field :=
| FNone
| FInt (z : Z)
| FStr (s : str).

(** [{"input": ..., "output": ...}] *)
Record testcase := mk_testcase { tc_input : field; tc_output : field }.

Definition testcases := dict pykey testcase.

Inductive verdict := AC | WA.

(** The [cause] string: [""], ["TLE"], ["ERR"] or ["RE"]. *)
Inductive cause := NoCause | TLE | ERR | RE.

(** The dictionary returned by [run_test]; its ["time"] entry, a difference
    of two wall-clock readings, is left out. *)
Record exec_result := mk_result {
  r_verdict : verdict;
  r_cause : cause;
  r_output : str;
  r_expected : str
}.

Inductive status := ALL_PASSED | SOME_FAILED | ALL_FAILED.

(** What [subprocess.run(..., timeout=...)] does. *)
Inductive run_outcome :=
| Completed (returncode : Z) (stdout stderr : bytes)
| TimeoutExpired
| LaunchError.

Definition path := string.

(** Everything the script reaches outside itself. *)
Record world := mk_world {
  (** [Path(p).exists()] *)
  exists_ : path -> bool;
  (** [open(p, "r").read()]; [None] when it raises *)
  read_text : path -> option str;
  (** [umsgpack.unpack(open(p, "rb"))]; [None] when it raises *)
  unpack : path -> option archive;
  (** [Path.home() / source.parent / "testcases" / source.with_suffix(".tc").name] *)
  default_tc : path -> path;
  (** the [g++] call of [compile_code]: return code and captured stderr;
      [None] when the compiler cannot be started *)
  gxx : path -> path -> option (Z * bytes);
  (** the candidate binary on a given standard input, under a time limit *)
  candidate : path -> Q -> bytes -> run_outcome
}.

(** The namespace returned by [parser.parse_args()]. *)
Record args := mk_args {
  a_source : string;
  a_time_limit : Q;
  a_output_bin : string;
  a_tc : option string;
  a_txt_input : option string;
  a_txt_output : option string;
  a_verbose : bool
}.

(** The module-level globals set by [parse_args]. *)
Record globals := mk_globals {
  SOURCE : string;
  EXECUTABLE : string;
  TIME_LIMIT : Q;
  TC_FILE : option path;
  TXT_INPUT_FILE : option string;
  TXT_OUTPUT_FILE : option string;
  VERBOSE : bool
}.

(* ================================================================== *)
(** ** Control: exits, exceptions and the trace of external actions *)

Inductive exn :=
| AttributeError
| TypeError
| UnicodeDecodeError
| OSError
| UnpackException.

Inductive result (A : Type) :=
| Ret (a : A)
| SysExit (code : Z)
| Raise (e : exn).
Arguments Ret {A} a.
Arguments SysExit {A} code.
Arguments Raise {A} e.

(** Observable actions, in the order they happen. *)
Inductive event :=
| EvCompile (src exe : path)
| EvSpawn (exe : path) (stdin : bytes)
| EvVerdict (tcnum : pykey) (v : verdict)
| EvSummary (st : status) (passed total : nat).

Definition M (A : Type) : Type := list event * result A.

Definition ret {A} (a : A) : M A := ([], Ret a).
Definition sys_exit {A} (code : Z) : M A := ([], SysExit code).
Definition raise {A} (e : exn) : M A := ([], Raise e).
Definition emit (e : event) : M unit := ([e], Ret tt).

Definition bind {A B} (m : M A) (f : A -> M B) : M B :=
  match m with
  | (t, Ret a) => let (t', r) := f a in (t ++ t', r)
  | (t, SysExit c) => (t, SysExit c)
  | (t, Raise e) => (t, Raise e)
  end.

Notation "x <- m ;; k" := (bind m (fun x => k))
  (at level 61, m at next level, right associativity).
Notation "m ;;; k" := (bind m (fun _ => k))
  (at level 61, right associativity).

(** Exit status of the interpreter: [sys.exit(n)] gives [n], a normal return
    0, an uncaught exception 1. *)
Definition exit_code {A} (m : M A) : Z :=
  match snd m with
  | Ret _ => 0%Z
  | SysExit c => c
  | Raise _ => 1%Z
  end.

(* ================================================================== *)
(** ** Dictionaries *)

Definition key_eqb (a b : pykey) : bool :=
  match a, b with
  | KStr x, KStr y => str_eqb x y
  | KBytes x, KBytes y => str_eqb x y
  | KInt x, KInt y => (x =? y)%Z
  | _, _ => false
  end.

(** [k in d] *)
Fixpoint dict_has {V} (k : pykey) (d : dict pykey V) : bool :=
  match d with
  | [] => false
  | (k', _) :: d' => key_eqb k k' || dict_has k d'
  end.

(** [d.get(k)], [None] when the key is absent *)
Fixpoint dict_get (k : pykey) (d : dict pykey pyval) : pyval :=
  match d with
  | [] => VNone
  | (k', v) :: d' => if key_eqb k k' then v else dict_get k d'
  end.

(** [d[k] = v]: an existing key keeps its place, a new one goes last. *)
Fixpoint dict_set {V} (k : pykey) (v : V) (d : dict pykey V) : dict pykey V :=
  match d with
  | [] => [(k, v)]
  | (k', v') :: d' =>
      if key_eqb k k' then (k', v) :: d' else (k', v') :: dict_set k v d'
  end.

(** Truth value of an archive value. *)
Definition truthy (v : pyval) : bool :=
  match v with
  | VNone => false
  | VInt z => negb (z =? 0)%Z
  | VStr s => negb (str_eqb s [])
  | VBytes b => negb (str_eqb b [])
  end.

(** [a or b] *)
Definition py_or (a b : pyval) : pyval := if truthy a then a else b.

Definition truthy_opt (o : option string) : bool :=
  match o with
  | Some s => negb (String.eqb s EmptyString)
  | None => false
  end.

(* ================================================================== *)
(** ** parse_args *)

(** The part of [parse_args] after [parser.parse_args()].  [parser.error]
    prints the usage and leaves with status 2. *)
Definition parse_args (w : world) (a : args) : M globals :=
  if negb (exists_ w (a_source a)) then sys_exit 2%Z
  else
    let tc_file :=
      match a_tc a with
      | Some p => if String.eqb p EmptyString then default_tc w (a_source a) else p
      | None => default_tc w (a_source a)
      end in
    let g tc := {| SOURCE := a_source a;
                   EXECUTABLE := a_output_bin a;
                   TIME_LIMIT := a_time_limit a;
                   TC_FILE := tc;
                   TXT_INPUT_FILE := a_txt_input a;
                   TXT_OUTPUT_FILE := a_txt_output a;
                   VERBOSE := a_verbose a |} in
    if truthy_opt (a_txt_input a) || truthy_opt (a_txt_output a) then
      if negb (truthy_opt (a_txt_input a) && truthy_opt (a_txt_output a))
      then sys_exit 2%Z
      else ret (g None)
    else ret (g (Some tc_file)).

(* ================================================================== *)
(** ** compile_code *)

Definition compile_code (w : world) (g : globals) : M unit :=
  emit (EvCompile (SOURCE g) (EXECUTABLE g)) ;;;
  match gxx w (SOURCE g) (EXECUTABLE g) with
  | None => raise OSError
  | Some (returncode, stderr) =>
      if negb (returncode =? 0)%Z then
        (* print(result.stderr.decode()); sys.exit(1) *)
        match utf8_decode stderr with
        | Some _ => sys_exit 1%Z
        | None => raise UnicodeDecodeError
        end
      else ret tt
  end.

(* ================================================================== *)
(** ** load_testcases *)

Definition k_input : str := lit "input".
Definition k_output : str := lit "output".

(** [k.decode() if isinstance(k, bytes) else k]; [None] stands for
    [UnicodeDecodeError]. *)
Definition norm_key (k : pykey) : option pykey :=
  match k with
  | KBytes b => option_map KStr (utf8_decode b)
  | _ => Some k
  end.

(** [x.decode() if isinstance(x, bytes) else x]; [None] stands for
    [UnicodeDecodeError]. *)
Definition norm_val (v : pyval) : option field :=
  match v with
  | VBytes b => option_map FStr (utf8_decode b)
  | VStr s => Some (FStr s)
  | VInt z => Some (FInt z)
  | VNone => Some FNone
  end.

(** [b"input" in v or "input" in v] *)
Definition has_input (v : dict pykey pyval) : bool :=
  dict_has (KBytes k_input) v || dict_has (KStr k_input) v.

(** The loop [for k, v in tcs.items()] filling [decoded]. *)
Fixpoint decode_entries (tcs : archive) (decoded : testcases) : result testcases :=
  match tcs with
  | [] => Ret decoded
  | (k, v) :: rest =>
      if has_input v then
        match norm_key k with
        | Some key =>
            let inp := py_or (dict_get (KStr k_input) v) (dict_get (KBytes k_input) v) in
            let out := py_or (dict_get (KStr k_output) v) (dict_get (KBytes k_output) v) in
            match norm_val inp, norm_val out with
            | Some i, Some o =>
                decode_entries rest
                  (dict_set key {| tc_input := i; tc_output := o |} decoded)
            | _, _ => Raise UnicodeDecodeError
            end
        | None => Raise UnicodeDecodeError
        end
      else decode_entries rest decoded
  end.

(** The loop [for i, (inp, out) in enumerate(zip(inputs, outputs), start=1)]. *)
Fixpoint number_cases (i : nat) (cases : list (str * str)) (tcs : testcases)
  : testcases :=
  match cases with
  | [] => tcs
  | (inp, out) :: rest =>
      number_cases (S i) rest
        (dict_set (KStr (str_of_nat i))
           {| tc_input := FStr (strip inp); tc_output := FStr (strip out) |} tcs)
  end.

Definition load_testcases (w : world) (g : globals) : M testcases :=
  match TC_FILE g with
  | Some tc_file =>
      if negb (exists_ w tc_file) then sys_exit 1%Z
      else
        match unpack w tc_file with
        | None => raise UnpackException
        | Some tcs => ([], decode_entries tcs [])
        end
  | None =>
      match TXT_INPUT_FILE g, TXT_OUTPUT_FILE g with
      | Some tin, Some tout =>
          if negb (truthy_opt (Some tin)) || negb (truthy_opt (Some tout))
          then sys_exit 1%Z
          else if negb (exists_ w tin) then sys_exit 1%Z
          else if negb (exists_ w tout) then sys_exit 1%Z
          else
            match read_text w tin, read_text w tout with
            | Some fin, Some fout =>
                let inputs := split_blank (strip fin) in
                let outputs := split_blank (strip fout) in
                if negb (List.length inputs =? List.length outputs)%nat then sys_exit 1%Z
                else ret (number_cases 1 (combine inputs outputs) [])
            | _, _ => raise OSError
            end
      | _, _ => sys_exit 1%Z
      end
  end.

(* ================================================================== *)
(** ** run_test *)

(** What the [try] block leaves behind: [proc] (return code and stderr when
    [subprocess.run] returned), [output] and [cause]. *)
Record attempt := mk_attempt {
  at_proc : option (Z * bytes);
  at_output : str;
  at_cause : cause
}.

(** The [try: ... except subprocess.TimeoutExpired: ... except Exception: ...]
    block.  [output] and [cause] start as [""]; every exception raised inside
    the block is caught. *)
Definition try_run (w : world) (g : globals) (tc : testcase) : M attempt :=
  match tc_input tc with
  | FStr s =>
      match utf8_encode s with
      | Some stdin =>
          ([EvSpawn (EXECUTABLE g) stdin],
           Ret
             match candidate w (EXECUTABLE g) (TIME_LIMIT g) stdin with
             | Completed returncode stdout stderr =>
                 match utf8_decode stdout with
                 | Some o => mk_attempt (Some (returncode, stderr)) (strip o) NoCause
                 | None => mk_attempt (Some (returncode, stderr)) [] ERR
                 end
             | TimeoutExpired => mk_attempt None [] TLE
             | LaunchError => mk_attempt None [] ERR
             end)
      | None => ret (mk_attempt None [] ERR)     (* UnicodeEncodeError *)
      end
  | _ => ret (mk_attempt None [] ERR)            (* no method [encode] *)
  end.

(** [tc["output"].strip()], outside the [try]. *)
Definition expected_of (tc : testcase) : M str :=
  match tc_output tc with
  | FStr e => ret (strip e)
  | _ => raise AttributeError
  end.

(** The block under [# Runtime Error Handling]; it prints
    [proc.stderr.decode()]. *)
Definition runtime_error_handling (a : attempt) : M cause :=
  match at_proc a, at_cause a with
  | Some (returncode, stderr), NoCause =>
      if negb (returncode =? 0)%Z then
        match utf8_decode stderr with
        | Some _ => ret RE
        | None => raise UnicodeDecodeError
        end
      else ret NoCause
  | _, c => ret c
  end.

Definition run_test (w : world) (g : globals) (tcnum : pykey) (tc : testcase)
  : M exec_result :=
  a <- try_run w g tc ;;
  expected <- expected_of tc ;;
  cause <- runtime_error_handling a ;;
  let verdict := if str_eqb (at_output a) expected then AC else WA in
  ret {| r_verdict := verdict;
         r_cause := cause;
         r_output := at_output a;
         r_expected := expected |}.

(* ================================================================== *)
(** ** sorted(testcases.items()) *)

Inductive key_kind := IsStr | IsBytes | IsInt.

Definition kind_of (k : pykey) : key_kind :=
  match k with KStr _ => IsStr | KBytes _ => IsBytes | KInt _ => IsInt end.

Definition kind_eqb (a b : key_kind) : bool :=
  match a, b with
  | IsStr, IsStr | IsBytes, IsBytes | IsInt, IsInt => true
  | _, _ => false
  end.

Definition kind_rank (k : key_kind) : nat :=
  match k with IsStr => 0 | IsBytes => 1 | IsInt => 2 end.

(** [a <= b] on keys of one kind; keys of different kinds cannot be compared
    in Python, and are ranked by kind here only to make the order total
    ([sorted_items] never sorts such a list). *)
Definition key_leb (a b : pykey) : bool :=
  match a, b with
  | KStr x, KStr y => str_leb x y
  | KBytes x, KBytes y => str_leb x y
  | KInt x, KInt y => (x <=? y)%Z
  | _, _ => (kind_rank (kind_of a) <=? kind_rank (kind_of b))%nat
  end.

Lemma str_leb_total (a b : str) : str_leb a b = true \/ str_leb b a = true.
Proof.
  revert b; induction a as [|x a IH]; intros [|y b]; simpl; auto.
  destruct (N.ltb_spec x y), (N.ltb_spec y x); auto; lia.
Qed.

Module ItemOrder <: TotalLeBool.

Definition t := (pykey * testcase)%type.

Definition leb (x y : t) : bool := key_leb (fst x) (fst y).

Lemma leb_total (x y : t) : leb x y = true \/ leb y x = true.
Proof.
  destruct x as [[a|a|a] ?], y as [[b|b|b] ?]; unfold leb; simpl; auto;
    try apply str_leb_total.
  destruct (Z.leb_spec a b), (Z.leb_spec b a); auto; lia.
Qed.

End ItemOrder.

Module ItemSort := Sort ItemOrder.

Definition homogeneous (items : list (pykey * testcase)) : bool :=
  match items with
  | [] => true
  | (k, _) :: rest =>
      forallb (fun kv => kind_eqb (kind_of (fst kv)) (kind_of k)) rest
  end.

(** [sorted(testcases.items())].  The keys of a dictionary are pairwise
    different, so the pairs are ordered by their keys alone; comparing a
    [str] key with an [int] key raises [TypeError]. *)
Definition sorted_items (tcs : testcases) : M (list (pykey * testcase)) :=
  if homogeneous tcs then ret (ItemSort.sort tcs) else raise TypeError.

(* ================================================================== *)
(** ** main *)

(** The three branches of the summary. *)
Definition summary_status (passed total : nat) : status :=
  if (passed =? total)%nat then ALL_PASSED
  else if (0 <? passed)%nat then SOME_FAILED
  else ALL_FAILED.

(** The body of [for tcnum, tc in sorted(testcases.items())], threading
    [passed]. *)
Fixpoint run_all (w : world) (g : globals) (items : list (pykey * testcase))
  (passed : nat) : M nat :=
  match items with
  | [] => ret passed
  | (tcnum, tc) :: rest =>
      result <- run_test w g tcnum tc ;;
      emit (EvVerdict tcnum (r_verdict result)) ;;;
      run_all w g rest
        (match r_verdict result with AC => S passed | WA => passed end)
  end.

Definition main (w : world) (g : globals) : M unit :=
  compile_code w g ;;;
  testcases <- load_testcases w g ;;
  match testcases with
  | [] => ret tt                       (* "[WARN] No full testcases found!" *)
  | _ =>
      let total := List.length testcases in
      items <- sorted_items testcases ;;
      passed <- run_all w g items 0%nat ;;
      emit (EvSummary (summary_status passed total) passed total)
  end.

(** [if __name__ == "__main__": parse_args(); main()] *)
Definition script (w : world) (a : args) : M unit :=
  g <- parse_args w a ;;
  main w g.

(* ================================================================== *)
(** ** Concrete runs *)

Module Scenario.

Local Open Scope string_scope.

Definition nl : str := [10%N].

(** A machine on which [sol.cpp] exists and compiles, with no other file. *)
Definition base_world (run : bytes -> run_outcome) : world :=
  {| exists_ := fun p => String.eqb p "sol.cpp";
     read_text := fun _ => None;
     unpack := fun _ => None;
     default_tc := fun _ => "/home/u/testcases/sol.tc";
     gxx := fun _ _ => Some (0%Z, []);
     candidate := fun _ _ stdin => run stdin |}.

Definition with_archive (w : world) (tcs : archive) : world :=
  {| exists_ := fun p => String.eqb p "/home/u/testcases/sol.tc" || exists_ w p;
     read_text := read_text w;
     unpack := fun p =>
       if String.eqb p "/home/u/testcases/sol.tc" then Some tcs else unpack w p;
     default_tc := default_tc w;
     gxx := gxx w;
     candidate := candidate w |}.

Definition with_text_pair (w : world) (fin fout : str) : world :=
  {| exists_ := fun p => String.eqb p "in.txt" || String.eqb p "out.txt" || exists_ w p;
     read_text := fun p =>
       if String.eqb p "in.txt" then Some fin
       else if String.eqb p "out.txt" then Some fout
       else read_text w p;
     unpack := unpack w;
     default_tc := default_tc w;
     gxx := gxx w;
     candidate := candidate w |}.

Definition plain_args : args :=
  {| a_source := "sol.cpp"; a_time_limit := 1%Q; a_output_bin := "./temp/main";
     a_tc := None; a_txt_input := None; a_txt_output := None;
     a_verbose := false |}.

Definition text_args : args :=
  {| a_source := "sol.cpp"; a_time_limit := 1%Q; a_output_bin := "./temp/main";
     a_tc := None; a_txt_input := Some "in.txt"; a_txt_output := Some "out.txt";
     a_verbose := false |}.

Definition archive_globals : globals :=
  {| SOURCE := "sol.cpp"; EXECUTABLE := "./temp/main"; TIME_LIMIT := 1%Q;
     TC_FILE := Some "/home/u/testcases/sol.tc";
     TXT_INPUT_FILE := None; TXT_OUTPUT_FILE := None; VERBOSE := false |}.

Definition text_globals : globals :=
  {| SOURCE := "sol.cpp"; EXECUTABLE := "./temp/main"; TIME_LIMIT := 1%Q;
     TC_FILE := None;
     TXT_INPUT_FILE := Some "in.txt"; TXT_OUTPUT_FILE := Some "out.txt";
     VERBOSE := false |}.

(** Candidates. *)
Definition echo (stdin : bytes) : run_outcome := Completed 0 stdin [].
Definition prints_ok_then_crashes (_ : bytes) : run_outcome :=
  Completed 1 (lit "ok" ++ nl)%list (lit "Segmentation fault").
Definition sleeps (_ : bytes) : run_outcome := TimeoutExpired.
Definition missing_binary (_ : bytes) : run_outcome := LaunchError.

Definition tc_of (i o : string) : testcase :=
  {| tc_input := FStr (lit i); tc_output := FStr (lit o) |}.

(** An archive entry saved without expected output. *)
Definition archive_no_output : archive :=
  [(KStr (lit "1"), [(KStr k_input, VStr (lit "7"))])].

(** The same identifier once as text and once as bytes. *)
Definition archive_twice : archive :=
  [(KStr (lit "1"), [(KStr k_input, VStr (lit "7")); (KStr k_output, VStr (lit "7"))]);
   (KBytes (lit "1"), [(KBytes k_input, VBytes (lit "8")); (KBytes k_output, VBytes (lit "8"))])].

(** Two runnable entries and a structural one. *)
Definition archive_mixed : archive :=
  [(KStr (lit "1"), [(KStr k_input, VStr (lit "7")); (KStr k_output, VStr (lit "7"))]);
   (KStr (lit "meta"), [(KStr (lit "note"), VStr (lit "x"))]);
   (KBytes (lit "2"), [(KBytes k_input, VBytes (lit "8")); (KBytes k_output, VBytes (lit "9"))])].

End Scenario.

(* ================================================================== *)
(** ** Vocabulary of the statements *)

(** [m], preceded by the actions [t]. *)
Definition after {A} (t : list event) (m : M A) : M A := (t ++ fst m, snd m).

(** The count seen by the summary after one more verdict. *)
Definition count (v : verdict) (passed : nat) : nat :=
  match v with AC => S passed | WA => passed end.

(** The loader's fatal errors: the archive is missing, one file of the text
    pair is missing, or the two files do not hold the same number of cases. *)
Inductive fatal_load (w : world) (g : globals) : Prop :=
| MissingArchive p :
    TC_FILE g = Some p -> exists_ w p = false -> fatal_load w g
| MissingInput tin tout :
    TC_FILE g = None ->
    TXT_INPUT_FILE g = Some tin -> TXT_OUTPUT_FILE g = Some tout ->
    exists_ w tin = false -> fatal_load w g
| MissingOutput tin tout :
    TC_FILE g = None ->
    TXT_INPUT_FILE g = Some tin -> TXT_OUTPUT_FILE g = Some tout ->
    exists_ w tout = false -> fatal_load w g
| CountMismatch tin tout fin fout :
    TC_FILE g = None ->
    TXT_INPUT_FILE g = Some tin -> TXT_OUTPUT_FILE g = Some tout ->
    read_text w tin = Some fin -> read_text w tout = Some fout ->
    List.length (split_blank (strip fin)) <> List.length (split_blank (strip fout)) ->
    fatal_load w g.

(** Text, as a MessagePack string or as UTF-8 bytes. *)
Definition is_text (v : pyval) : Prop :=
  match v with
  | VStr _ => True
  | VBytes b => utf8_decode b <> None
  | _ => False
  end.

(** The identifier under which an entry is stored. *)
Definition norm_id (k : pykey) : pykey :=
  match norm_key k with Some k' => k' | None => k end.

(** A well-formed archive: identifiers are text, byte-encoded or numbers,
    fields are text or byte-encoded text, and no two entries carry the same
    identifier (as text). *)
Record well_formed (tcs : archive) : Prop := {
  wf_ids : Forall (fun e => norm_key (fst e) <> None) tcs;
  wf_fields : Forall (fun e => Forall (fun kv => is_text (snd kv)) (snd e)) tcs;
  wf_unique : NoDup (map (fun e => norm_id (fst e)) tcs)
}.

(** The entries that contain an input field. *)
Definition runnable (tcs : archive) : archive :=
  filter (fun e => has_input (snd e)) tcs.



(** The verdicts reported in a trace, in order. *)
Definition verdicts (t : list event) : list verdict :=
  flat_map (fun e => match e with EvVerdict _ v => [v] | _ => [] end) t.

Definition is_AC (v : verdict) : bool :=
  match v with AC => true | WA => false end.

(** The summaries printed in a trace. *)
Definition is_summary (e : event) : bool :=
  match e with EvSummary _ _ _ => true | _ => false end.

(** ["\n\n".join(parts)], the inverse of [split("\n\n")]. *)
Fixpoint join_blank (parts : list str) : str :=
  match parts with
  | [] => []
  | p :: ps =>
      match ps with
      | [] => p
      | _ => p ++ [10; 10] ++ join_blank ps
      end
  end.

(** [testcases[k]]; [None] when the key is absent. *)
Fixpoint dict_find {V} (k : pykey) (d : dict pykey V) : option V :=
  match d with
  | [] => None
  | (k', v) :: d' => if key_eqb k k' then Some v else dict_find k d'
  end.

(** The testcase the archive loader builds from the fields [v] of one entry;
    [None] when a byte field is not UTF-8. *)
Definition entry_case (v : dict pykey pyval) : option testcase :=
  match norm_val (py_or (dict_get (KStr k_input) v) (dict_get (KBytes k_input) v)),
        norm_val (py_or (dict_get (KStr k_output) v) (dict_get (KBytes k_output) v))
  with
  | Some i, Some o => Some {| tc_input := i; tc_output := o |}
  | _, _ => None
  end.

(** The fields of the last entry of [tcs] that has an input field and is
    stored under the identifier [key]. *)
Fixpoint last_write (key : pykey) (tcs : archive) : option (dict pykey pyval) :=
  match tcs with
  | [] => None
  | (k, v) :: rest =>
      match last_write key rest with
      | Some v' => Some v'
      | None =>
          if has_input v && key_eqb key (norm_id k) then Some v else None
      end
  end.

(** The cases of a text pair, numbered from [i] in the order of the files. *)
Definition numbered (i : nat) (cases : list (str * str)) : testcases :=
  map (fun jc : nat * (str * str) =>
         (KStr (str_of_nat (fst jc)),
          {| tc_input := FStr (strip (fst (snd jc)));
             tc_output := FStr (strip (snd (snd jc))) |}))
      (combine (seq i (List.length cases)) cases).

(** The standard inputs handed to the candidate in a trace, in order. *)
Definition spawns (t : list event) : list bytes :=
  flat_map (fun e => match e with EvSpawn _ stdin => [stdin] | _ => [] end) t.

(** The identifiers of the testcases reported in a trace, in order. *)
Definition reported (t : list event) : list pykey :=
  flat_map (fun e => match e with EvVerdict k _ => [k] | _ => [] end) t.

(** The number of compiler invocations in a trace. *)
Definition compilations (t : list event) : nat :=
  List.length (filter (fun e => match e with EvCompile _ _ => true | _ => false end) t).

(* ================================================================== *)
(** * Properties *)

(** ** Text *)

Example strip_example :
  strip ([32; 9] ++ lit "a b" ++ [13; 10; 32]) = lit "a b".
Proof. reflexivity. Qed.

Example split_blank_example :
  split_blank [97; 10; 10; 10; 98] = [[97]; [10; 98]]
  /\ split_blank [] = [[]].
Proof. split; reflexivity. Qed.

Example str_of_nat_example :
  str_of_nat 10 = lit "10" /\ str_of_nat 0 = lit "0".
Proof. split; reflexivity. Qed.

Example utf8_example :
  utf8_decode [226; 130; 172; 10] = Some [8364; 10]
  /\ utf8_encode [8364; 10] = Some [226; 130; 172; 10]
  /\ utf8_decode [255] = None /\ utf8_decode [192; 128] = None
  /\ utf8_encode [55296] = None.
Proof. repeat split; reflexivity. Qed.

Lemma str_eqb_eq (a b : str) : str_eqb a b = true <-> a = b.
Proof.
  revert b; induction a as [|x a IH]; intros [|y b]; simpl;
    try (split; (discriminate || reflexivity)).
  rewrite andb_true_iff, N.eqb_eq, IH. split.
  - intros [-> ->]; reflexivity.
  - intros E; injection E; auto.
Qed.

Lemma str_eqb_refl (a : str) : str_eqb a a = true.
Proof. apply str_eqb_eq; reflexivity. Qed.






(** ** The monad *)

Lemma bind_trace {A B} (m : M A) (f : A -> M B) (e : event) :
  In e (fst (bind m f)) ->
  In e (fst m) \/ exists a, snd m = Ret a /\ In e (fst (f a)).
Proof.
  destruct m as [t [a|c|x]]; simpl; auto.
  destruct (f a) as [t' r] eqn:E; simpl. rewrite in_app_iff.
  intros [H|H]; [left; assumption|right]. exists a; rewrite E; auto.
Qed.

Lemma bind_ret_inv {A B} (m : M A) (f : A -> M B) t (b : B) :
  bind m f = (t, Ret b) ->
  exists t1 a t2, m = (t1, Ret a) /\ f a = (t2, Ret b) /\ t = t1 ++ t2.
Proof.
  destruct m as [t1 [a|c|x]]; simpl; try discriminate.
  destruct (f a) as [t2 r] eqn:E. intros H; injection H as <- ->.
  exists t1, a, t2; auto.
Qed.


(** ** run_test *)

(** The [try] block never lets an exception through. *)
Lemma try_run_returns w g tc : exists t a, try_run w g tc = (t, Ret a).
Proof.
  unfold try_run. destruct (tc_input tc) as [| |s]; try (eexists _, _; reflexivity).
  destruct (utf8_encode s); eexists _, _; reflexivity.
Qed.

(** When the [try] block ends with a cause, [output] still has its initial
    value. *)
Lemma try_run_cause_output w g tc t a :
  try_run w g tc = (t, Ret a) -> at_cause a <> NoCause -> at_output a = [].
Proof.
  unfold try_run.
  destruct (tc_input tc) as [| |s];
    try (intros H; injection H as <- <-; reflexivity).
  destruct (utf8_encode s) as [stdin|];
    [|intros H; injection H as <- <-; reflexivity].
  intros H; injection H as <- <-.
  destruct (candidate _ _ _ _) as [rc out err| |]; try reflexivity.
  destruct (utf8_decode out); simpl; intros Hc; [contradiction|reflexivity].
Qed.

(** The cause is [TLE] exactly when the candidate was started and the wait
    ran into the time limit. *)
Lemma try_run_TLE w g tc t a :
  try_run w g tc = (t, Ret a) ->
  (at_cause a = TLE <->
   exists i stdin, tc_input tc = FStr i /\ utf8_encode i = Some stdin
     /\ candidate w (EXECUTABLE g) (TIME_LIMIT g) stdin = TimeoutExpired).
Proof.
  unfold try_run. destruct (tc_input tc) as [| |s] eqn:Ei.
  1,2: intros H; injection H as <- <-; simpl; split;
       [discriminate | intros (? & ? & ? & _); discriminate].
  destruct (utf8_encode s) as [stdin|] eqn:Es.
  2: intros H; injection H as <- <-; simpl; split;
     [discriminate | intros (? & ? & ? & ? & _); congruence].
  intros H; injection H as <- <-.
  destruct (candidate _ _ _ _) as [rc out err| |] eqn:E.
  - destruct (utf8_decode out); simpl; (split; [discriminate|]);
      intros (i & b & Hi & Hb & Hc); congruence.
  - simpl; split; [|reflexivity]. intros _; exists s, stdin; auto.
  - simpl; split; [discriminate|].
    intros (i & b & Hi & Hb & Hc); congruence.
Qed.

Lemma run_test_unfold w g tcnum tc t a e :
  try_run w g tc = (t, Ret a) -> tc_output tc = FStr e ->
  run_test w g tcnum tc =
  after t
    (cause <- runtime_error_handling a ;;
     ret {| r_verdict := if str_eqb (at_output a) (strip e) then AC else WA;
            r_cause := cause;
            r_output := at_output a;
            r_expected := strip e |}).
Proof.
  intros Htry He. unfold run_test, expected_of. rewrite Htry, He. simpl.
  destruct (runtime_error_handling a) as [t' [c| |]]; reflexivity.
Qed.

Lemma run_test_completed w g tcnum tc i stdin rc out err o e :
  tc_input tc = FStr i -> utf8_encode i = Some stdin ->
  candidate w (EXECUTABLE g) (TIME_LIMIT g) stdin = Completed rc out err ->
  utf8_decode out = Some o ->
  tc_output tc = FStr e ->
  run_test w g tcnum tc =
  after [EvSpawn (EXECUTABLE g) stdin]
    (cause <- runtime_error_handling (mk_attempt (Some (rc, err)) (strip o) NoCause) ;;
     ret {| r_verdict := if str_eqb (strip o) (strip e) then AC else WA;
            r_cause := cause;
            r_output := strip o;
            r_expected := strip e |}).
Proof.
  intros Hi Hs Hc Ho He. unfold run_test, try_run, expected_of.
  rewrite Hi, Hs, Hc, Ho, He. simpl.
  destruct (runtime_error_handling _) as [t [c| |]]; reflexivity.
Qed.

Lemma verdict_AC_iff (o e : str) :
  (if str_eqb o e then AC else WA) = AC <-> o = e.
Proof.
  destruct (str_eqb o e) eqn:E.
  - apply str_eqb_eq in E; tauto.
  - split; [discriminate|]. intros ->. rewrite str_eqb_refl in E; discriminate.
Qed.

Lemma verdict_WA_iff (o e : str) :
  (if str_eqb o e then AC else WA) = WA <-> o <> e.
Proof.
  destruct (str_eqb o e) eqn:E.
  - apply str_eqb_eq in E. split; [discriminate|]. intros H; contradiction.
  - split; [|reflexivity]. intros _ ->. rewrite str_eqb_refl in E; discriminate.
Qed.

(** One turn of the loop in [main]. *)
Lemma run_all_step w g tcnum tc rest passed t r :
  run_test w g tcnum tc = (t, Ret r) ->
  run_all w g ((tcnum, tc) :: rest) passed =
  after (t ++ [EvVerdict tcnum (r_verdict r)])
    (run_all w g rest (count (r_verdict r) passed)).
Proof.
  intros H. simpl. rewrite H. unfold bind at 1, after, count. simpl.
  destruct (run_all w g rest _) as [t' x]. simpl.
  rewrite <- app_assoc. reflexivity.
Qed.



(** C1, as the code has it.  After a non-zero exit the result carries the
    cause [RE], set without looking at the output; the verdict field only
    ever holds [AC] or [WA], and it is [WA] (the case is not counted as
    passed) whenever stdout and the expected output differ after [strip]. *)
Theorem nonzero_exit_cause_RE
  w g tcnum tc i stdin rc out err o msg e :
  tc_input tc = FStr i -> utf8_encode i = Some stdin ->
  candidate w (EXECUTABLE g) (TIME_LIMIT g) stdin = Completed rc out err ->
  rc <> 0%Z ->
  utf8_decode out = Some o -> utf8_decode err = Some msg ->
  tc_output tc = FStr e ->
  exists r,
    run_test w g tcnum tc = ([EvSpawn (EXECUTABLE g) stdin], Ret r)
    /\ r_cause r = RE
    /\ r_output r = strip o /\ r_expected r = strip e
    /\ (strip o <> strip e ->
        r_verdict r = WA
        /\ forall rest passed,
            run_all w g ((tcnum, tc) :: rest) passed =
            after [EvSpawn (EXECUTABLE g) stdin; EvVerdict tcnum WA]
              (run_all w g rest passed)).
Proof.
  intros Hi Hs Hc Hrc Ho Herr He.
  assert (Hrun := run_test_completed w g tcnum tc i stdin rc out err o e
                    Hi Hs Hc Ho He).
  unfold runtime_error_handling in Hrun; simpl in Hrun.
  apply Z.eqb_neq in Hrc. rewrite Hrc, Herr in Hrun. simpl in Hrun.
  unfold after in Hrun; simpl in Hrun.
  eexists; split; [exact Hrun|].
  cbn [r_cause r_output r_expected r_verdict].
  split; [reflexivity|]. split; [reflexivity|]. split; [reflexivity|].
  intros Hne. apply verdict_WA_iff in Hne. split; [exact Hne|].
  intros rest passed. rewrite (run_all_step _ _ _ _ _ _ _ _ Hrun).
  cbn [r_verdict app]. rewrite Hne. reflexivity.
Qed.

Lemma nonzero_exit_cause_RE_witness :
  exists r,
    run_test (Scenario.base_world Scenario.prints_ok_then_crashes)
      Scenario.archive_globals (KStr (lit "1")) (Scenario.tc_of "1" "no")
    = ([EvSpawn "./temp/main"%string (lit "1")], Ret r)
    /\ r_cause r = RE
    /\ r_output r = strip (lit "ok" ++ Scenario.nl)
    /\ r_expected r = strip (lit "no")
    /\ (strip (lit "ok" ++ Scenario.nl) <> strip (lit "no") ->
        r_verdict r = WA
        /\ forall rest passed,
            run_all (Scenario.base_world Scenario.prints_ok_then_crashes)
              Scenario.archive_globals
              ((KStr (lit "1"), Scenario.tc_of "1" "no") :: rest) passed =
            after [EvSpawn "./temp/main"%string (lit "1");
                   EvVerdict (KStr (lit "1")) WA]
              (run_all (Scenario.base_world Scenario.prints_ok_then_crashes)
                 Scenario.archive_globals rest passed)).
Proof.
  apply (nonzero_exit_cause_RE
           (Scenario.base_world Scenario.prints_ok_then_crashes)
           Scenario.archive_globals (KStr (lit "1")) (Scenario.tc_of "1" "no")
           (lit "1") (lit "1") 1%Z (lit "ok" ++ Scenario.nl)
           (lit "Segmentation fault") (lit "ok" ++ Scenario.nl)
           (lit "Segmentation fault") (lit "no"));
    (reflexivity || discriminate).
Defined.

(** C1 fails as stated: a candidate that prints the expected answer and then
    exits with code 1 gets the verdict [AC] and is counted as passed. *)
Lemma nonzero_exit_accepted :
  let w := Scenario.base_world Scenario.prints_ok_then_crashes in
  let g := Scenario.archive_globals in
  let tc := Scenario.tc_of "1" "ok" in
  candidate w (EXECUTABLE g) (TIME_LIMIT g) (lit "1")
    = Completed 1 (lit "ok" ++ Scenario.nl) (lit "Segmentation fault")
  /\ run_test w g (KStr (lit "1")) tc
     = ([EvSpawn "./temp/main"%string (lit "1")],
        Ret {| r_verdict := AC; r_cause := RE;
               r_output := lit "ok"; r_expected := lit "ok" |})
  /\ run_all w g [(KStr (lit "1"), tc)] 0
     = ([EvSpawn "./temp/main"%string (lit "1"); EvVerdict (KStr (lit "1")) AC],
        Ret 1%nat).
Proof. repeat split. Qed.

(** C2, as the code has it.  When the wait runs into the time limit the
    result carries the cause [TLE] and an empty output; the verdict field is
    [WA], and the case is not counted as passed, whenever the expected output
    is not empty after [strip]. *)
Theorem timeout_cause_TLE w g tcnum tc i stdin e :
  tc_input tc = FStr i -> utf8_encode i = Some stdin ->
  candidate w (EXECUTABLE g) (TIME_LIMIT g) stdin = TimeoutExpired ->
  tc_output tc = FStr e ->
  exists r,
    run_test w g tcnum tc = ([EvSpawn (EXECUTABLE g) stdin], Ret r)
    /\ r_cause r = TLE
    /\ r_output r = [] /\ r_expected r = strip e
    /\ (strip e <> [] ->
        r_verdict r = WA
        /\ forall rest passed,
            run_all w g ((tcnum, tc) :: rest) passed =
            after [EvSpawn (EXECUTABLE g) stdin; EvVerdict tcnum WA]
              (run_all w g rest passed)).
Proof.
  intros Hi Hs Hc He.
  assert (Hrun : run_test w g tcnum tc =
                 ([EvSpawn (EXECUTABLE g) stdin],
                  Ret {| r_verdict := if str_eqb [] (strip e) then AC else WA;
                         r_cause := TLE; r_output := [];
                         r_expected := strip e |})).
  { unfold run_test, try_run, expected_of. rewrite Hi, Hs, Hc, He. reflexivity. }
  eexists; split; [exact Hrun|].
  cbn [r_cause r_output r_expected r_verdict].
  split; [reflexivity|]. split; [reflexivity|]. split; [reflexivity|].
  intros Hne.
  assert (Hv : (if str_eqb [] (strip e) then AC else WA) = WA)
    by (apply verdict_WA_iff; congruence).
  split; [exact Hv|].
  intros rest passed. rewrite (run_all_step _ _ _ _ _ _ _ _ Hrun).
  cbn [r_verdict app]. rewrite Hv. reflexivity.
Qed.

Lemma timeout_cause_TLE_witness :
  exists r,
    run_test (Scenario.base_world Scenario.sleeps) Scenario.archive_globals
      (KStr (lit "1")) (Scenario.tc_of "5" "25")
    = ([EvSpawn "./temp/main"%string (lit "5")], Ret r)
    /\ r_cause r = TLE
    /\ r_output r = [] /\ r_expected r = strip (lit "25")
    /\ (strip (lit "25") <> [] ->
        r_verdict r = WA
        /\ forall rest passed,
            run_all (Scenario.base_world Scenario.sleeps)
              Scenario.archive_globals
              ((KStr (lit "1"), Scenario.tc_of "5" "25") :: rest) passed =
            after [EvSpawn "./temp/main"%string (lit "5");
                   EvVerdict (KStr (lit "1")) WA]
              (run_all (Scenario.base_world Scenario.sleeps)
                 Scenario.archive_globals rest passed)).
Proof.
  apply (timeout_cause_TLE (Scenario.base_world Scenario.sleeps)
           Scenario.archive_globals (KStr (lit "1"))
           (Scenario.tc_of "5" "25") (lit "5") (lit "5") (lit "25"));
    reflexivity.
Defined.

(** C2 fails as stated: with a blank expected-output file, a candidate that
    never finishes is reported [AC] and the summary says that all testcases
    passed. *)
Lemma timeout_accepted :
  let w := Scenario.with_text_pair (Scenario.base_world Scenario.sleeps)
             (lit "5") Scenario.nl in
  candidate w "./temp/main"%string 1%Q (lit "5") = TimeoutExpired
  /\ run_test w Scenario.text_globals (KStr (lit "1"))
       {| tc_input := FStr (lit "5"); tc_output := FStr [] |}
     = ([EvSpawn "./temp/main"%string (lit "5")],
        Ret {| r_verdict := AC; r_cause := TLE;
               r_output := []; r_expected := [] |})
  /\ script w Scenario.text_args
     = ([EvCompile "sol.cpp"%string "./temp/main"%string;
         EvSpawn "./temp/main"%string (lit "5");
         EvVerdict (KStr (lit "1")) AC;
         EvSummary ALL_PASSED 1 1],
        Ret tt).
Proof. repeat split. Qed.

(** C9.  A testcase whose expected output is empty after [strip] gets the
    verdict [AC] and is counted as passed when the run timed out (cause
    [TLE]) or failed unexpectedly (cause [ERR]): [output] is still [""]
    there, and the verdict only compares the two strings. *)
Theorem empty_expected_accepted_on_failure w g tcnum tc e t a :
  tc_output tc = FStr e -> strip e = [] ->
  try_run w g tc = (t, Ret a) ->
  at_cause a = TLE \/ at_cause a = ERR ->
  run_test w g tcnum tc
  = (t, Ret {| r_verdict := AC; r_cause := at_cause a;
               r_output := []; r_expected := [] |})
  /\ forall rest passed,
      run_all w g ((tcnum, tc) :: rest) passed =
      after (t ++ [EvVerdict tcnum AC]) (run_all w g rest (S passed)).
Proof.
  intros He Hempty Htry Hcause.
  assert (Hout : at_output a = []).
  { apply (try_run_cause_output w g tc t a Htry).
    destruct Hcause as [H|H]; rewrite H; discriminate. }
  assert (Hreh : runtime_error_handling a = ret (at_cause a)).
  { unfold runtime_error_handling.
    destruct (at_proc a) as [[rc err]|];
      destruct Hcause as [H|H]; rewrite H; reflexivity. }
  assert (Hrun : run_test w g tcnum tc
                 = (t, Ret {| r_verdict := AC; r_cause := at_cause a;
                              r_output := []; r_expected := [] |})).
  { rewrite (run_test_unfold w g tcnum tc t a e Htry He), Hreh, Hout, Hempty.
    unfold after; simpl. rewrite app_nil_r. reflexivity. }
  split; [exact Hrun|].
  intros rest passed. rewrite (run_all_step _ _ _ _ _ _ _ _ Hrun). reflexivity.
Qed.

Lemma empty_expected_accepted_on_failure_witness :
  run_test (Scenario.base_world Scenario.missing_binary)
    Scenario.archive_globals (KStr (lit "1")) (Scenario.tc_of "5" " ")
  = ([EvSpawn "./temp/main"%string (lit "5")],
     Ret {| r_verdict := AC; r_cause := ERR;
            r_output := []; r_expected := [] |})
  /\ forall rest passed,
      run_all (Scenario.base_world Scenario.missing_binary)
        Scenario.archive_globals
        ((KStr (lit "1"), Scenario.tc_of "5" " ") :: rest) passed =
      after ([EvSpawn "./temp/main"%string (lit "5")]
             ++ [EvVerdict (KStr (lit "1")) AC])
        (run_all (Scenario.base_world Scenario.missing_binary)
           Scenario.archive_globals rest (S passed)).
Proof.
  apply (empty_expected_accepted_on_failure
           (Scenario.base_world Scenario.missing_binary)
           Scenario.archive_globals (KStr (lit "1"))
           (Scenario.tc_of "5" " ") (lit " ")
           [EvSpawn "./temp/main"%string (lit "5")]
           (mk_attempt None [] ERR));
    (reflexivity || (right; reflexivity)).
Defined.

(** ** The loader's fatal errors and the build *)

Lemma load_testcases_silent w g : fst (load_testcases w g) = [].
Proof.
  unfold load_testcases.
  destruct (TC_FILE g) as [p|].
  - destruct (exists_ w p); simpl; [|reflexivity].
    destruct (unpack w p); reflexivity.
  - destruct (TXT_INPUT_FILE g) as [tin|], (TXT_OUTPUT_FILE g) as [tout|];
      try reflexivity.
    destruct (negb (truthy_opt (Some tin)) || negb (truthy_opt (Some tout)));
      [reflexivity|].
    destruct (exists_ w tin); [|reflexivity].
    destruct (exists_ w tout); [|reflexivity]. simpl.
    destruct (read_text w tin), (read_text w tout); try reflexivity.
    destruct (negb _); reflexivity.
Qed.

Lemma fatal_load_exits w g :
  fatal_load w g -> load_testcases w g = ([], SysExit 1%Z).
Proof.
  unfold load_testcases.
  intros [p Hp Hex | tin tout Ht Hi Ho Hex | tin tout Ht Hi Ho Hex
         | tin tout fin fout Ht Hi Ho Hfi Hfo Hlen].
  - rewrite Hp, Hex. reflexivity.
  - rewrite Ht, Hi, Ho, Hex.
    destruct (negb (truthy_opt (Some tin)) || negb (truthy_opt (Some tout)));
      reflexivity.
  - rewrite Ht, Hi, Ho, Hex.
    destruct (negb (truthy_opt (Some tin)) || negb (truthy_opt (Some tout)));
      [reflexivity|].
    destruct (exists_ w tin); reflexivity.
  - rewrite Ht, Hi, Ho, Hfi, Hfo.
    apply Nat.eqb_neq in Hlen. rewrite Hlen.
    destruct (negb (truthy_opt (Some tin)) || negb (truthy_opt (Some tout)));
      [reflexivity|].
    destruct (exists_ w tin); [|reflexivity].
    destruct (exists_ w tout); reflexivity.
Qed.

(** [main] starts with the build, whatever the testcase files look like. *)
Lemma main_after_build w g :
  main w g =
  after [EvCompile (SOURCE g) (EXECUTABLE g)]
    (match gxx w (SOURCE g) (EXECUTABLE g) with
     | None => raise OSError
     | Some (returncode, stderr) =>
         if negb (returncode =? 0)%Z then
           match utf8_decode stderr with
           | Some _ => sys_exit 1%Z
           | None => raise UnicodeDecodeError
           end
         else
           testcases <- load_testcases w g ;;
           match testcases with
           | [] => ret tt
           | _ =>
               items <- sorted_items testcases ;;
               passed <- run_all w g items 0%nat ;;
               emit (EvSummary (summary_status passed (List.length testcases))
                       passed (List.length testcases))
           end
     end).
Proof.
  unfold main, compile_code, after.
  destruct (gxx w (SOURCE g) (EXECUTABLE g)) as [[rc err]|]; [|reflexivity].
  destruct (rc =? 0)%Z; simpl.
  - match goal with |- context [bind (load_testcases w g) ?f] =>
      destruct (bind (load_testcases w g) f) end. reflexivity.
  - destruct (utf8_decode err); reflexivity.
Qed.

(** C3, as the code has it.  [main] builds first and loads afterwards: when
    loading fails fatally the compiler has been invoked exactly once, before
    the loader; the run then stops with exit status 1, no testcase is executed
    and nothing is compiled after the error. *)
Theorem fatal_load_stops_after_build w g :
  fatal_load w g ->
  load_testcases w g = ([], SysExit 1%Z)
  /\ fst (main w g) = [EvCompile (SOURCE g) (EXECUTABLE g)]
  /\ exit_code (main w g) = 1%Z
  /\ (forall err, gxx w (SOURCE g) (EXECUTABLE g) = Some (0%Z, err) ->
      main w g = ([EvCompile (SOURCE g) (EXECUTABLE g)], SysExit 1%Z)).
Proof.
  intros Hfatal. pose proof (fatal_load_exits w g Hfatal) as Hload.
  split; [exact Hload|].
  rewrite main_after_build. unfold after, exit_code.
  destruct (gxx w (SOURCE g) (EXECUTABLE g)) as [[rc err]|].
  - destruct (rc =? 0)%Z eqn:Erc; simpl.
    + rewrite Hload; simpl. repeat split.
    + destruct (utf8_decode err); simpl; repeat split;
        intros err' H; injection H as -> _; discriminate.
  - simpl. repeat split; intros err H; discriminate.
Qed.

Lemma fatal_load_stops_after_build_witness :
  load_testcases (Scenario.base_world Scenario.echo) Scenario.text_globals
  = ([], SysExit 1%Z)
  /\ fst (main (Scenario.base_world Scenario.echo) Scenario.text_globals)
     = [EvCompile "sol.cpp"%string "./temp/main"%string]
  /\ exit_code (main (Scenario.base_world Scenario.echo) Scenario.text_globals)
     = 1%Z
  /\ (forall err,
        gxx (Scenario.base_world Scenario.echo) "sol.cpp"%string
          "./temp/main"%string = Some (0%Z, err) ->
        main (Scenario.base_world Scenario.echo) Scenario.text_globals
        = ([EvCompile "sol.cpp"%string "./temp/main"%string], SysExit 1%Z)).
Proof.
  apply (fatal_load_stops_after_build
           (Scenario.base_world Scenario.echo) Scenario.text_globals).
  apply (MissingInput _ _ "in.txt"%string "out.txt"%string); reflexivity.
Defined.

(** C3 fails as stated: with the archive missing, the compiler has run by the
    time the loader reports the error. *)
Lemma compiler_runs_before_fatal_load :
  let w := Scenario.base_world Scenario.echo in
  let g := Scenario.archive_globals in
  TC_FILE g = Some "/home/u/testcases/sol.tc"%string
  /\ exists_ w "/home/u/testcases/sol.tc"%string = false
  /\ load_testcases w g = ([], SysExit 1%Z)
  /\ main w g = ([EvCompile "sol.cpp"%string "./temp/main"%string], SysExit 1%Z)
  /\ In (EvCompile "sol.cpp"%string "./temp/main"%string) (fst (main w g)).
Proof. repeat split. left; reflexivity. Qed.

(** ** Failures that leave [run_test] *)

(** The expected output is read outside the [try]: a testcase whose output
    is not text makes [run_test] raise. *)
Lemma run_test_raises_without_output w g tcnum tc :
  (forall e, tc_output tc <> FStr e) ->
  snd (run_test w g tcnum tc) = Raise AttributeError.
Proof.
  intros H. unfold run_test, expected_of.
  destruct (try_run_returns w g tc) as (t & a & ->).
  destruct (tc_output tc) as [| |e]; try reflexivity.
  destruct (H e); reflexivity.
Qed.

(** The loader keeps an entry that has an input field but no output: its
    output becomes [None]. *)
Lemma loader_keeps_entry_without_output :
  load_testcases
    (Scenario.with_archive (Scenario.base_world Scenario.echo)
       Scenario.archive_no_output)
    Scenario.archive_globals
  = ([], Ret [(KStr (lit "1"),
               {| tc_input := FStr (lit "7"); tc_output := FNone |})]).
Proof. reflexivity. Qed.

(** So does an entry whose output is the empty string: [""] is false, and
    [v.get("output") or v.get(b"output")] yields [None]. *)
Lemma loader_turns_empty_output_into_None :
  decode_entries
    [(KStr (lit "1"), [(KStr k_input, VStr (lit "7")); (KStr k_output, VStr [])])]
    []
  = Ret [(KStr (lit "1"), {| tc_input := FStr (lit "7"); tc_output := FNone |})].
Proof. reflexivity. Qed.

(** C5 does not hold of the code: on an archive entry without output field,
    [run_test] raises [AttributeError] after the candidate has run; the
    exception leaves [main], no verdict and no summary is produced, and the
    interpreter ends with status 1. *)
Theorem missing_output_crashes_run :
  let w := Scenario.with_archive (Scenario.base_world Scenario.echo)
             Scenario.archive_no_output in
  run_test w Scenario.archive_globals (KStr (lit "1"))
    {| tc_input := FStr (lit "7"); tc_output := FNone |}
  = ([EvSpawn "./temp/main"%string (lit "7")], Raise AttributeError)
  /\ script w Scenario.plain_args
     = ([EvCompile "sol.cpp"%string "./temp/main"%string;
         EvSpawn "./temp/main"%string (lit "7")],
        Raise AttributeError)
  /\ exit_code (script w Scenario.plain_args) = 1%Z.
Proof. repeat split. Qed.

(** A second way out of [run_test]: [proc.stderr.decode()] is called outside
    the [try], so a candidate that exits non-zero with a stderr that is not
    UTF-8 makes [run_test] raise. *)
Lemma undecodable_stderr_crashes_run :
  run_test (Scenario.base_world (fun _ => Completed 1 [] [255]))
    Scenario.archive_globals (KStr (lit "1")) (Scenario.tc_of "7" "7")
  = ([EvSpawn "./temp/main"%string (lit "7")], Raise UnicodeDecodeError).
Proof. reflexivity. Qed.

(** What the [try] does catch: with a text expected output and a stderr
    that can be printed, [run_test] returns a result on every path. *)
Lemma run_test_returns w g tcnum tc e :
  tc_output tc = FStr e ->
  (forall i stdin rc out err,
      tc_input tc = FStr i -> utf8_encode i = Some stdin ->
      candidate w (EXECUTABLE g) (TIME_LIMIT g) stdin = Completed rc out err ->
      utf8_decode err <> None) ->
  exists t r, run_test w g tcnum tc = (t, Ret r).
Proof.
  intros He Herr.
  destruct (try_run_returns w g tc) as (t & a & Htry).
  rewrite (run_test_unfold w g tcnum tc t a e Htry He).
  assert (Hreh : exists c, runtime_error_handling a = ([], Ret c)).
  { unfold runtime_error_handling.
    destruct (at_proc a) as [[rc err]|] eqn:Ep; [|eexists; reflexivity].
    destruct (at_cause a) eqn:Ec; try (eexists; reflexivity).
    destruct (negb (rc =? 0)%Z); [|eexists; reflexivity].
    destruct (utf8_decode err) eqn:Ed; [eexists; reflexivity|].
    exfalso. revert Htry. unfold try_run.
    destruct (tc_input tc) as [| |i] eqn:Ei;
      try (intros H; injection H as <- <-; discriminate).
    destruct (utf8_encode i) as [stdin|] eqn:Es;
      [|intros H; injection H as <- <-; discriminate].
    intros H; injection H as <- <-.
    destruct (candidate w (EXECUTABLE g) (TIME_LIMIT g) stdin)
      as [rc' out err'| |] eqn:Ecand; try discriminate.
    apply (Herr i stdin rc' out err' eq_refl Es Ecand).
    destruct (utf8_decode out); simpl in Ep; injection Ep as -> ->; exact Ed. }
  destruct Hreh as [c Hc]. rewrite Hc. eexists _, _. reflexivity.
Qed.

(** ** Exit status *)


Lemma sorted_items_ret tcs items :
  sorted_items tcs = ([], Ret items) -> items = ItemSort.sort tcs.
Proof.
  unfold sorted_items. destruct (homogeneous tcs); [|discriminate].
  intros H; injection H as <-; reflexivity.
Qed.




(** ** The summary *)

Lemma verdicts_app (t1 t2 : list event) :
  verdicts (t1 ++ t2) = verdicts t1 ++ verdicts t2.
Proof. apply flat_map_app. Qed.

Lemma runtime_error_handling_silent a : fst (runtime_error_handling a) = [].
Proof.
  unfold runtime_error_handling.
  destruct (at_proc a) as [[rc err]|], (at_cause a); try reflexivity.
  destruct (negb (rc =? 0)%Z); [|reflexivity].
  destruct (utf8_decode err); reflexivity.
Qed.

(** [run_test] itself reports nothing but the start of the candidate. *)
Lemma run_test_trace w g tcnum tc :
  fst (run_test w g tcnum tc) = fst (try_run w g tc).
Proof.
  unfold run_test, expected_of.
  destruct (try_run_returns w g tc) as (t & a & ->).
  pose proof (runtime_error_handling_silent a) as Hs.
  destruct (tc_output tc) as [| |e]; cbn [bind raise ret fst snd app].
  1,2: apply app_nil_r.
  destruct (runtime_error_handling a) as [t' [c| |]];
    cbn [bind ret fst snd app] in *; subst t'; rewrite ?app_nil_r; reflexivity.
Qed.

Lemma try_run_trace w g tc :
  fst (try_run w g tc) = []
  \/ exists stdin, fst (try_run w g tc) = [EvSpawn (EXECUTABLE g) stdin].
Proof.
  unfold try_run. destruct (tc_input tc) as [| |i]; auto.
  destruct (utf8_encode i) as [stdin|]; auto.
  right; exists stdin; reflexivity.
Qed.

Lemma run_test_no_verdict w g tcnum tc :
  verdicts (fst (run_test w g tcnum tc)) = [].
Proof.
  rewrite run_test_trace.
  destruct (try_run_trace w g tc) as [->|[stdin ->]]; reflexivity.
Qed.

Lemma run_test_no_summary w g tcnum tc e :
  In e (fst (run_test w g tcnum tc)) -> is_summary e = false.
Proof.
  rewrite run_test_trace.
  destruct (try_run_trace w g tc) as [->|[stdin ->]]; simpl; [tauto|].
  intros [<-|[]]; reflexivity.
Qed.

(** The loop reports one verdict per testcase and counts the [AC] ones. *)
Lemma run_all_counts w g items :
  forall passed t passed',
    run_all w g items passed = (t, Ret passed') ->
    List.length (verdicts t) = List.length items
    /\ passed' = (passed + List.length (filter is_AC (verdicts t)))%nat.
Proof.
  induction items as [|[tcnum tc] rest IH]; intros passed t passed' H.
  - injection H as <- <-. simpl. split; [reflexivity|lia].
  - cbn [run_all] in H.
    apply bind_ret_inv in H. destruct H as (t1 & r & t2 & Hrun & H & ->).
    apply bind_ret_inv in H. destruct H as (t3 & [] & t4 & Hemit & H & ->).
    unfold emit in Hemit. injection Hemit as <-.
    apply IH in H. destruct H as [Hlen Hp].
    pose proof (run_test_no_verdict w g tcnum tc) as Hnov.
    rewrite Hrun in Hnov; simpl in Hnov.
    rewrite !verdicts_app, Hnov. simpl. split; [lia|].
    rewrite Hp. destruct (r_verdict r); simpl; lia.
Qed.

Lemma run_all_no_summary w g items :
  forall passed e,
    In e (fst (run_all w g items passed)) -> is_summary e = false.
Proof.
  induction items as [|[tcnum tc] rest IH]; intros passed e;
    [simpl; tauto|cbn [run_all]].
  intros H. apply bind_trace in H. destruct H as [H|(r & Hr & H)].
  - exact (run_test_no_summary _ _ _ _ _ H).
  - apply bind_trace in H. destruct H as [[<-|[]]|([] & _ & H)]; [reflexivity|].
    exact (IH _ _ H).
Qed.

Lemma sort_length (tcs : testcases) :
  List.length (ItemSort.sort tcs) = List.length tcs.
Proof. symmetry. apply Permutation_length, ItemSort.Permuted_sort. Qed.

Lemma compile_code_trace w g :
  fst (compile_code w g) = [EvCompile (SOURCE g) (EXECUTABLE g)].
Proof.
  unfold compile_code.
  destruct (gxx w (SOURCE g) (EXECUTABLE g)) as [[rc err]|]; [|reflexivity].
  destruct (negb (rc =? 0)%Z); [|reflexivity].
  destruct (utf8_decode err); reflexivity.
Qed.

Lemma sorted_items_silent tcs : fst (sorted_items tcs) = [].
Proof. unfold sorted_items. destruct (homogeneous tcs); reflexivity. Qed.

(** A summary in the trace of [main] comes from a complete run. *)
Lemma main_summary_inv w g st passed total :
  In (EvSummary st passed total) (fst (main w g)) ->
  exists tcs t,
    load_testcases w g = ([], Ret tcs)
    /\ run_all w g (ItemSort.sort tcs) 0 = (t, Ret passed)
    /\ total = List.length tcs /\ tcs <> []
    /\ st = summary_status passed total
    /\ main w g
       = (EvCompile (SOURCE g) (EXECUTABLE g) :: t ++ [EvSummary st passed total],
          Ret tt).
Proof.
  unfold main. intros H.
  pose proof (compile_code_trace w g) as Hct.
  pose proof (load_testcases_silent w g) as Hlt.
  apply bind_trace in H. destruct H as [H|([] & Hc & H)].
  { rewrite Hct in H. destruct H as [H|[]]; discriminate. }
  apply bind_trace in H. destruct H as [H|(tcs & Hl & H)].
  { rewrite Hlt in H. destruct H. }
  destruct (compile_code w g) as [tc rc]; cbn [fst snd] in Hct, Hc; subst tc rc.
  destruct (load_testcases w g) as [tl rl]; cbn [fst snd] in Hlt, Hl; subst tl rl.
  destruct tcs as [|tc0 tcs']; [destruct H|].
  remember (tc0 :: tcs') as tcs eqn:Etcs.
  pose proof (sorted_items_silent tcs) as Hst.
  apply bind_trace in H. destruct H as [H|(items & Hs & H)].
  { rewrite Hst in H. destruct H. }
  destruct (sorted_items tcs) as [ts rs] eqn:Esort;
    cbn [fst snd] in Hst, Hs; subst ts rs.
  apply sorted_items_ret in Esort as Hitems. subst items.
  apply bind_trace in H. destruct H as [H|(p & Hp & H)].
  { apply run_all_no_summary in H. discriminate. }
  destruct H as [H|[]]. injection H as <- <- <-.
  destruct (run_all w g (ItemSort.sort tcs) 0) as [t rr] eqn:Erun;
    cbn [snd] in Hp; subst rr.
  exists tcs, t. split; [reflexivity|]. split; [exact Erun|].
  split; [reflexivity|]. split; [subst tcs; discriminate|].
  split; [reflexivity|].
  subst tcs. cbn [bind ret emit app]. rewrite Esort.
  cbn [bind ret emit app]. rewrite Erun. reflexivity.
Qed.

Lemma summary_status_spec (passed total : nat) :
  (1 <= total)%nat -> (passed <= total)%nat ->
  (summary_status passed total = ALL_PASSED <-> passed = total)
  /\ (summary_status passed total = SOME_FAILED <-> (0 < passed < total)%nat)
  /\ (summary_status passed total = ALL_FAILED <-> passed = 0%nat).
Proof.
  intros Ht Hp. unfold summary_status.
  destruct (Nat.eqb_spec passed total) as [E|E].
  - repeat split; intros; (reflexivity || discriminate || lia).
  - destruct (Nat.ltb_spec 0 passed) as [L|L];
      repeat split; intros; (reflexivity || discriminate || lia).
Qed.

(** C8.  Every summary printed by a run counts the verdicts of that run:
    [total] is the number of testcases executed (at least one), [passed] the
    number of [AC] among them, so [passed <= total]; and the status is a
    function of the two numbers: all passed exactly when they are equal, some
    failed exactly when [0 < passed < total], all failed exactly when
    [passed = 0]. *)
Theorem summary_invariant w g st passed total :
  In (EvSummary st passed total) (fst (main w g)) ->
  total = List.length (verdicts (fst (main w g)))
  /\ passed = List.length (filter is_AC (verdicts (fst (main w g))))
  /\ (1 <= total)%nat /\ (passed <= total)%nat
  /\ st = summary_status passed total
  /\ (st = ALL_PASSED <-> passed = total)
  /\ (st = SOME_FAILED <-> (0 < passed < total)%nat)
  /\ (st = ALL_FAILED <-> passed = 0%nat).
Proof.
  intros Hin.
  destruct (main_summary_inv w g st passed total Hin)
    as (tcs & t & Hload & Hrun & Htotal & Hne & Hst & Hmain).
  destruct (run_all_counts w g _ _ _ _ Hrun) as [Hlen Hpassed].
  rewrite sort_length in Hlen. simpl in Hpassed.
  assert (Hv : verdicts (fst (main w g)) = verdicts t).
  { rewrite Hmain. cbn [fst]. change (EvCompile ?a ?b :: ?l) with ([EvCompile a b] ++ l).
    rewrite !verdicts_app. simpl. apply app_nil_r. }
  rewrite Hv.
  assert (H1 : (1 <= total)%nat).
  { subst total. destruct tcs; [contradiction Hne; reflexivity|simpl; lia]. }
  assert (H2 : (passed <= total)%nat).
  { rewrite Hpassed, Htotal, <- Hlen. apply filter_length_le. }
  split; [congruence|]. split; [exact Hpassed|].
  split; [exact H1|]. split; [exact H2|]. split; [exact Hst|].
  rewrite Hst. apply summary_status_spec; assumption.
Qed.

Lemma summary_invariant_witness :
  let m := main (Scenario.with_archive (Scenario.base_world Scenario.echo)
                   Scenario.archive_mixed) Scenario.archive_globals in
  2%nat = List.length (verdicts (fst m))
  /\ 1%nat = List.length (filter is_AC (verdicts (fst m)))
  /\ (1 <= 2)%nat /\ (1 <= 2)%nat
  /\ SOME_FAILED = summary_status 1 2
  /\ (SOME_FAILED = ALL_PASSED <-> 1%nat = 2%nat)
  /\ (SOME_FAILED = SOME_FAILED <-> (0 < 1 < 2)%nat)
  /\ (SOME_FAILED = ALL_FAILED <-> 1%nat = 0%nat).
Proof.
  apply (summary_invariant
           (Scenario.with_archive (Scenario.base_world Scenario.echo)
              Scenario.archive_mixed) Scenario.archive_globals
           SOME_FAILED 1 2).
  vm_compute. do 5 right. left. reflexivity.
Defined.

(** ** The archive loader *)

Lemma key_eqb_eq (a b : pykey) : key_eqb a b = true <-> a = b.
Proof.
  destruct a as [x|x|x], b as [y|y|y]; simpl;
    try (split; [discriminate|intros H; discriminate H]).
  - rewrite str_eqb_eq. split; [intros ->; reflexivity|intros H; injection H; auto].
  - rewrite str_eqb_eq. split; [intros ->; reflexivity|intros H; injection H; auto].
  - rewrite Z.eqb_eq. split; [intros ->; reflexivity|intros H; injection H; auto].
Qed.

(** Storing under a key that is not there yet appends. *)
Lemma dict_set_fresh {V} (k : pykey) (v : V) (d : dict pykey V) :
  ~ In k (map fst d) -> dict_set k v d = d ++ [(k, v)].
Proof.
  induction d as [|[k' v'] d IH]; simpl; intros H; [reflexivity|].
  destruct (key_eqb k k') eqn:E.
  - apply key_eqb_eq in E. subst k'. tauto.
  - rewrite IH by tauto. reflexivity.
Qed.

(** Storing under a key that is there keeps the number of entries. *)
Lemma dict_set_present {V} (k : pykey) (v : V) (d : dict pykey V) :
  In k (map fst d) -> map fst (dict_set k v d) = map fst d.
Proof.
  induction d as [|[k' v'] d IH]; simpl; intros H; [destruct H|].
  destruct (key_eqb k k') eqn:E; [reflexivity|].
  simpl. f_equal. apply IH. destruct H as [H|H]; [|exact H].
  subst k'. assert (key_eqb k k = true) by (apply key_eqb_eq; reflexivity).
  congruence.
Qed.

Lemma dict_get_text (k : pykey) (v : dict pykey pyval) :
  Forall (fun kv => is_text (snd kv)) v ->
  dict_get k v = VNone \/ is_text (dict_get k v).
Proof.
  induction 1 as [|[k' x] v Hx Hv IH]; simpl; [left; reflexivity|].
  destruct (key_eqb k k'); [right; exact Hx|exact IH].
Qed.

Lemma norm_val_text (x : pyval) :
  x = VNone \/ is_text x -> exists f, norm_val x = Some f.
Proof.
  intros [->|H]; [eexists; reflexivity|].
  destruct x as [| |s|b]; simpl in *; try contradiction; [eexists; reflexivity|].
  destruct (utf8_decode b); [eexists; reflexivity|contradiction H; reflexivity].
Qed.

Lemma py_or_text (a b : pyval) :
  a = VNone \/ is_text a -> b = VNone \/ is_text b ->
  py_or a b = VNone \/ is_text (py_or a b).
Proof. unfold py_or. destruct (truthy a); auto. Qed.

(** Leaving entries out keeps the identifiers apart. *)
Lemma runnable_ids_unique (tcs : archive) :
  NoDup (map (fun e => norm_id (fst e)) tcs) ->
  NoDup (map (fun e => norm_id (fst e)) (runnable tcs)).
Proof.
  unfold runnable. induction tcs as [|[k v] rest IH]; simpl; intros Hnd.
  - constructor.
  - apply NoDup_cons_iff in Hnd. destruct Hnd as [Hfresh Hrest].
    destruct (has_input v); simpl; [|exact (IH Hrest)].
    apply NoDup_cons; [|exact (IH Hrest)].
    intros Hin. apply Hfresh. apply in_map_iff in Hin.
    destruct Hin as ([k' v'] & Hid & Hfil). apply filter_In in Hfil.
    apply in_map_iff. exists (k', v'). tauto.
Qed.

(** Two entries of a well-formed archive with one identifier are one entry. *)
Lemma same_id_same_entry (tcs : archive) (e1 e2 : pykey * dict pykey pyval) :
  NoDup (map (fun e => norm_id (fst e)) tcs) ->
  In e1 tcs -> In e2 tcs -> norm_id (fst e1) = norm_id (fst e2) -> e1 = e2.
Proof.
  induction tcs as [|e rest IH]; simpl; intros Hnd H1 H2 Hid; [destruct H1|].
  apply NoDup_cons_iff in Hnd. destruct Hnd as [Hfresh Hrest].
  destruct H1 as [->|H1], H2 as [->|H2]; auto.
  - contradiction Hfresh. rewrite Hid.
    apply (in_map (fun e => norm_id (fst e))); assumption.
  - contradiction Hfresh. rewrite <- Hid.
    apply (in_map (fun e => norm_id (fst e))); assumption.
Qed.

(** The loop of the archive loader, started on a dictionary [decoded] whose
    keys differ from the identifiers still to come. *)
Lemma decode_entries_runnable (tcs : archive) :
  forall decoded,
    Forall (fun e => norm_key (fst e) <> None) tcs ->
    Forall (fun e => Forall (fun kv => is_text (snd kv)) (snd e)) tcs ->
    NoDup (map fst decoded ++ map (fun e => norm_id (fst e)) (runnable tcs)) ->
    exists loaded,
      decode_entries tcs decoded = Ret loaded
      /\ map fst loaded
         = map fst decoded ++ map (fun e => norm_id (fst e)) (runnable tcs).
Proof.
  induction tcs as [|[k v] rest IH]; intros decoded Hids Hfields Hnd.
  - exists decoded. simpl. rewrite app_nil_r. auto.
  - inversion Hids as [|? ? Hk Hids']; subst.
    inversion Hfields as [|? ? Hv Hfields']; subst.
    simpl in *. unfold runnable in *. simpl in *.
    destruct (has_input v) eqn:Hin; [|apply IH; assumption].
    unfold norm_id in Hnd |- *. simpl in Hnd |- *.
    destruct (norm_key k) as [key|] eqn:Ek; [|contradiction Hk; reflexivity].
    destruct (norm_val_text _
                (py_or_text _ _ (dict_get_text (KStr k_input) v Hv)
                   (dict_get_text (KBytes k_input) v Hv))) as [i ->].
    destruct (norm_val_text _
                (py_or_text _ _ (dict_get_text (KStr k_output) v Hv)
                   (dict_get_text (KBytes k_output) v Hv))) as [o ->].
    assert (Hfresh : ~ In key (map fst decoded)).
    { intros Hin'. apply NoDup_remove_2 in Hnd. apply Hnd.
      apply in_app_iff. left; exact Hin'. }
    rewrite (dict_set_fresh _ _ _ Hfresh).
    destruct (IH (decoded ++ [(key, {| tc_input := i; tc_output := o |})])
                Hids' Hfields') as (loaded & Hl & Hkeys).
    { rewrite map_app. simpl. rewrite <- app_assoc. exact Hnd. }
    exists loaded. split; [exact Hl|].
    rewrite Hkeys, map_app. simpl. rewrite <- app_assoc. reflexivity.
Qed.

(** C7.  From a well-formed archive the loader returns exactly the entries
    that contain an input field (as a text or as a byte key), one testcase
    for each, in the order of the archive and under their identifiers;
    entries without input field are left out, and the number of testcases is
    the number of entries with an input field. *)
Theorem archive_loader_keeps_runnable_entries w g p tcs :
  TC_FILE g = Some p -> exists_ w p = true -> unpack w p = Some tcs ->
  well_formed tcs ->
  exists loaded,
    load_testcases w g = ([], Ret loaded)
    /\ map fst loaded = map (fun e => norm_id (fst e)) (runnable tcs)
    /\ NoDup (map fst loaded)
    /\ List.length loaded
       = List.length (filter (fun e => has_input (snd e)) tcs)
    /\ (forall e, In e tcs -> has_input (snd e) = false ->
        ~ In (norm_id (fst e)) (map fst loaded)).
Proof.
  intros Hp Hex Hun [Hids Hfields Huniq].
  pose proof (runnable_ids_unique tcs Huniq) as Hnd.
  destruct (decode_entries_runnable tcs [] Hids Hfields Hnd)
    as (loaded & Hl & Hkeys).
  simpl in Hkeys.
  exists loaded. unfold load_testcases. rewrite Hp, Hex, Hun. simpl.
  rewrite Hl. split; [reflexivity|]. split; [exact Hkeys|].
  split; [rewrite Hkeys; exact Hnd|]. split.
  - rewrite <- (length_map fst loaded), Hkeys, length_map. reflexivity.
  - intros e He Hno Hin. rewrite Hkeys in Hin.
    apply in_map_iff in Hin. destruct Hin as (e' & Heq & He').
    apply filter_In in He'. destruct He' as [He' Hyes].
    assert (e' = e) by (apply (same_id_same_entry tcs); assumption).
    subst e'. congruence.
Qed.

(** Without the uniqueness of identifiers the count is lost: the same
    identifier as text and as bytes ends in one testcase, the later entry
    overwriting the earlier one. *)
Lemma archive_loader_merges_equal_ids :
  decode_entries Scenario.archive_twice []
  = Ret [(KStr (lit "1"),
          {| tc_input := FStr (lit "8"); tc_output := FStr (lit "8") |})]
  /\ List.length (runnable Scenario.archive_twice) = 2%nat.
Proof. split; reflexivity. Qed.

Lemma archive_loader_keeps_runnable_entries_witness :
  exists loaded,
    load_testcases
      (Scenario.with_archive (Scenario.base_world Scenario.echo)
         Scenario.archive_mixed) Scenario.archive_globals
    = ([], Ret loaded)
    /\ map fst loaded
       = map (fun e => norm_id (fst e)) (runnable Scenario.archive_mixed)
    /\ NoDup (map fst loaded)
    /\ List.length loaded
       = List.length (filter (fun e => has_input (snd e)) Scenario.archive_mixed)
    /\ (forall e, In e Scenario.archive_mixed -> has_input (snd e) = false ->
        ~ In (norm_id (fst e)) (map fst loaded)).
Proof.
  apply (archive_loader_keeps_runnable_entries
           (Scenario.with_archive (Scenario.base_world Scenario.echo)
              Scenario.archive_mixed) Scenario.archive_globals
           "/home/u/testcases/sol.tc"%string Scenario.archive_mixed);
    try reflexivity.
  constructor.
  - repeat constructor; discriminate.
  - repeat constructor; simpl; discriminate.
  - repeat constructor; simpl; intros H;
      repeat (destruct H as [H|H]; [discriminate H|]); exact H.
Defined.

(** ** The text-pair loader and the order of execution *)

Lemma digits_inj (d d' : Decimal.uint) : digits d = digits d' -> d = d'.
Proof.
  revert d'; induction d; intros d'; destruct d'; simpl; intros H;
    try discriminate H; try reflexivity;
    injection H as H; f_equal; auto.
Qed.

Lemma str_of_nat_inj (n m : nat) : str_of_nat n = str_of_nat m -> n = m.
Proof. intros H. apply Unsigned.to_uint_inj, digits_inj, H. Qed.


(** What the text-pair branch returns. *)
Lemma load_text_pair_inv w g t tcs :
  TC_FILE g = None -> load_testcases w g = (t, Ret tcs) ->
  exists cases, tcs = number_cases 1 cases [].
Proof.
  unfold load_testcases. intros ->.
  destruct (TXT_INPUT_FILE g) as [tin|], (TXT_OUTPUT_FILE g) as [tout|];
    try discriminate.
  destruct (negb (truthy_opt (Some tin)) || negb (truthy_opt (Some tout)));
    [discriminate|].
  destruct (negb (exists_ w tin)); [discriminate|].
  destruct (negb (exists_ w tout)); [discriminate|].
  destruct (read_text w tin) as [fin|], (read_text w tout) as [fout|];
    try discriminate.
  destruct (negb _); [discriminate|].
  intros H; injection H as <- <-. eexists; reflexivity.
Qed.


(** *** The order used by [sorted] *)













(** The eleven-case run of the witness, as it is reported. *)
Lemma eleven_cases_order :
  let fin := List.concat (repeat (lit "7" ++ [10; 10]) 11) in
  let w := Scenario.with_text_pair (Scenario.base_world Scenario.echo) fin fin in
  map (fun e => match e with EvVerdict (KStr k) _ => k | _ => [] end)
    (filter (fun e => match e with EvVerdict _ _ => true | _ => false end)
       (fst (script w Scenario.text_args)))
  = [lit "1"; lit "10"; lit "11"; lit "2"; lit "3"; lit "4"; lit "5";
     lit "6"; lit "7"; lit "8"; lit "9"].
Proof. vm_compute. reflexivity. Qed.

(** ** Two complete runs *)

(** An archive with a passing case, a structural entry and a failing case. *)
Example run_on_archive :
  script (Scenario.with_archive (Scenario.base_world Scenario.echo)
            Scenario.archive_mixed) Scenario.plain_args
  = ([EvCompile "sol.cpp"%string "./temp/main"%string;
      EvSpawn "./temp/main"%string (lit "7"); EvVerdict (KStr (lit "1")) AC;
      EvSpawn "./temp/main"%string (lit "8"); EvVerdict (KStr (lit "2")) WA;
      EvSummary SOME_FAILED 1 2],
     Ret tt).
Proof. reflexivity. Qed.

(** A text pair of three matching blocks. *)
Example run_on_text_pair :
  script (Scenario.with_text_pair (Scenario.base_world Scenario.echo)
            [97; 10; 10; 98; 10; 10; 99; 10] [97; 10; 10; 98; 10; 10; 99])
    Scenario.text_args
  = ([EvCompile "sol.cpp"%string "./temp/main"%string;
      EvSpawn "./temp/main"%string [97]; EvVerdict (KStr (lit "1")) AC;
      EvSpawn "./temp/main"%string [98]; EvVerdict (KStr (lit "2")) AC;
      EvSpawn "./temp/main"%string [99]; EvVerdict (KStr (lit "3")) AC;
      EvSummary ALL_PASSED 3 3],
     Ret tt).
Proof. reflexivity. Qed.

(* ================================================================== *)
(** * Further properties of the harness *)

(** ** strip, split and the codec *)

Lemma rstrip_idem (s : str) : rstrip (rstrip s) = rstrip s.
Proof.
  induction s as [|c s IH]; simpl; [reflexivity|].
  destruct (rstrip s) as [|x r] eqn:E.
  - destruct (is_space c) eqn:Ec; simpl; [reflexivity|]. rewrite Ec; reflexivity.
  - change (rstrip (c :: x :: r)) with
      (match rstrip (x :: r) with
       | [] => if is_space c then [] else [c]
       | y :: r' => c :: y :: r'
       end).
    rewrite IH. reflexivity.
Qed.

Lemma lstrip_head (s : str) :
  lstrip s = [] \/ exists c r, lstrip s = c :: r /\ is_space c = false.
Proof.
  induction s as [|c s IH]; simpl; [left; reflexivity|].
  destruct (is_space c) eqn:E; [exact IH|]. right; exists c, s; auto.
Qed.

Lemma rstrip_head (c : N) (r : str) :
  is_space c = false -> exists r', rstrip (c :: r) = c :: r'.
Proof.
  intros Hc. simpl. destruct (rstrip r) as [|x r'].
  - rewrite Hc. exists []; reflexivity.
  - exists (x :: r'); reflexivity.
Qed.

Lemma rstrip_last (s : str) :
  rstrip s = [] \/ exists r c, rstrip s = r ++ [c] /\ is_space c = false.
Proof.
  induction s as [|c s IH]; simpl; [left; reflexivity|].
  destruct IH as [->|(r & x & -> & Hx)].
  - destruct (is_space c) eqn:E; [left; reflexivity|].
    right; exists [], c; auto.
  - right. exists (c :: r), x. split; [|exact Hx].
    destruct r; reflexivity.
Qed.

(** X1.  [strip] leaves nothing to strip: its result is empty, or starts and
    ends with a character that is not whitespace, and stripping it again
    changes nothing. *)
Theorem strip_is_trimmed (s : str) :
  strip (strip s) = strip s
  /\ (strip s = []
      \/ exists a b r1 r2,
           strip s = a :: r1 /\ strip s = r2 ++ [b]
           /\ is_space a = false /\ is_space b = false).
Proof.
  unfold strip.
  destruct (lstrip_head s) as [->|(c & r & -> & Hc)].
  - split; [reflexivity|left; reflexivity].
  - destruct (rstrip_head c r Hc) as [r' E].
    split.
    + rewrite E. simpl lstrip. rewrite Hc, <- E. apply rstrip_idem.
    + right. destruct (rstrip_last (c :: r)) as [H|(r2 & b & H & Hb)].
      * rewrite E in H; discriminate.
      * exists c, b, r', r2. auto.
Qed.

Lemma split_blank_nonempty (s : str) : split_blank s <> [].
Proof.
  destruct s as [|c [|c2 rest]]; try discriminate.
  change (split_blank (c :: c2 :: rest)) with
    (if (c =? 10) && (c2 =? 10) then [] :: split_blank rest
     else push c (split_blank (c2 :: rest))).
  destruct ((c =? 10) && (c2 =? 10)); [discriminate|].
  unfold push. destruct (split_blank (c2 :: rest)); discriminate.
Qed.

Lemma join_blank_push (c : N) (parts : list str) :
  parts <> [] -> join_blank (push c parts) = c :: join_blank parts.
Proof.
  destruct parts as [|p ps]; [intros H; contradiction H; reflexivity|].
  intros _. simpl. destruct ps; reflexivity.
Qed.

Lemma join_split_upto (n : nat) :
  forall s, (List.length s <= n)%nat -> join_blank (split_blank s) = s.
Proof.
  induction n as [|n IH]; intros s Hlen.
  - destruct s; [reflexivity|simpl in Hlen; lia].
  - destruct s as [|c [|c2 rest]]; try reflexivity.
    simpl in Hlen.
    change (split_blank (c :: c2 :: rest)) with
      (if (c =? 10) && (c2 =? 10) then [] :: split_blank rest
       else push c (split_blank (c2 :: rest))).
    destruct ((c =? 10) && (c2 =? 10)) eqn:E.
    + apply andb_true_iff in E. destruct E as [E1 E2].
      apply N.eqb_eq in E1, E2. subst c c2.
      pose proof (split_blank_nonempty rest) as Hne.
      simpl. destruct (split_blank rest) as [|p ps] eqn:Es;
        [contradiction Hne; reflexivity|].
      rewrite <- Es, IH by lia. reflexivity.
    + rewrite join_blank_push by apply split_blank_nonempty.
      rewrite IH by (simpl; lia). reflexivity.
Qed.

(** X2.  [split("\n\n")] loses nothing and never returns an empty list:
    joining the blocks with blank lines gives the text back, and the text
    without any blank line is one block (so an empty file is one empty
    case). *)
Theorem split_blank_join (s : str) :
  join_blank (split_blank s) = s
  /\ (1 <= List.length (split_blank s))%nat
  /\ split_blank [] = [[]].
Proof.
  split; [apply (join_split_upto (List.length s)); lia|].
  split; [|reflexivity].
  pose proof (split_blank_nonempty s).
  destruct (split_blank s); [contradiction|simpl; lia].
Qed.

(** Arithmetic on bytes, with division by a constant. *)
Ltac div_lia := zify; Z.to_euclidean_division_equations; lia.

Lemma decode_1 b0 rest :
  b0 < 128 -> utf8_decode (b0 :: rest) = option_map (cons b0) (utf8_decode rest).
Proof.
  intros H. cbn [utf8_decode]. destruct (N.ltb_spec b0 128); [reflexivity|lia].
Qed.

Lemma decode_2 b0 b1 rest :
  194 <= b0 <= 223 -> 128 <= b1 <= 191 ->
  utf8_decode (b0 :: b1 :: rest)
  = option_map (cons ((b0 - 192) * 64 + (b1 - 128))) (utf8_decode rest).
Proof.
  intros H0 H1. cbn [utf8_decode]. unfold is_cont.
  destruct (N.ltb_spec b0 128); [lia|].
  destruct (N.leb_spec 194 b0); [|lia].
  destruct (N.leb_spec b0 223); [|lia].
  destruct (N.leb_spec 128 b1); [|lia].
  destruct (N.leb_spec b1 191); [|lia].
  reflexivity.
Qed.

Lemma decode_3 b0 b1 b2 rest :
  224 <= b0 <= 239 -> 128 <= b1 <= 191 -> 128 <= b2 <= 191 ->
  let c := (b0 - 224) * 4096 + (b1 - 128) * 64 + (b2 - 128) in
  2048 <= c -> (c < 55296 \/ 57343 < c) ->
  utf8_decode (b0 :: b1 :: b2 :: rest) = option_map (cons c) (utf8_decode rest).
Proof.
  intros H0 H1 H2 c Hc Hs. cbn [utf8_decode]. unfold is_cont. fold c.
  destruct (N.ltb_spec b0 128); [lia|].
  destruct (N.leb_spec 194 b0); [|lia].
  destruct (N.leb_spec b0 223); [lia|].
  destruct (N.leb_spec 224 b0); [|lia].
  destruct (N.leb_spec b0 239); [|lia].
  destruct (N.leb_spec 128 b1); [|lia].
  destruct (N.leb_spec b1 191); [|lia].
  destruct (N.leb_spec 128 b2); [|lia].
  destruct (N.leb_spec b2 191); [|lia].
  destruct (N.leb_spec 2048 c); [|lia].
  destruct (N.leb_spec 55296 c), (N.leb_spec c 57343); try lia; reflexivity.
Qed.

Lemma decode_4 b0 b1 b2 b3 rest :
  240 <= b0 <= 244 -> 128 <= b1 <= 191 -> 128 <= b2 <= 191 -> 128 <= b3 <= 191 ->
  let c := (b0 - 240) * 262144 + (b1 - 128) * 4096 + (b2 - 128) * 64 + (b3 - 128) in
  65536 <= c <= 1114111 ->
  utf8_decode (b0 :: b1 :: b2 :: b3 :: rest) = option_map (cons c) (utf8_decode rest).
Proof.
  intros H0 H1 H2 H3 c Hc. cbn [utf8_decode]. unfold is_cont. fold c.
  destruct (N.ltb_spec b0 128); [lia|].
  destruct (N.leb_spec 194 b0); [|lia].
  destruct (N.leb_spec b0 223); [lia|].
  destruct (N.leb_spec 224 b0); [|lia].
  destruct (N.leb_spec b0 239); [lia|].
  destruct (N.leb_spec 240 b0); [|lia].
  destruct (N.leb_spec b0 244); [|lia].
  destruct (N.leb_spec 128 b1); [|lia].
  destruct (N.leb_spec b1 191); [|lia].
  destruct (N.leb_spec 128 b2); [|lia].
  destruct (N.leb_spec b2 191); [|lia].
  destruct (N.leb_spec 128 b3); [|lia].
  destruct (N.leb_spec b3 191); [|lia].
  destruct (N.leb_spec 65536 c); [|lia].
  destruct (N.leb_spec c 1114111); [|lia].
  reflexivity.
Qed.

Lemma some_eq {A} (x y : A) : Some x = Some y -> x = y.
Proof. intros H; injection H; auto. Qed.

Lemma utf8_decode_char (c : N) (b rest : bytes) :
  utf8_encode_char c = Some b ->
  utf8_decode (b ++ rest) = option_map (cons c) (utf8_decode rest).
Proof.
  unfold utf8_encode_char.
  destruct (N.ltb_spec c 128).
  { intros H'; apply some_eq in H'; subst b. apply decode_1; assumption. }
  destruct (N.ltb_spec c 2048).
  { intros H'; apply some_eq in H'; subst b. cbn [List.app].
    rewrite decode_2 by div_lia. do 2 f_equal. div_lia. }
  destruct (N.leb_spec 55296 c), (N.leb_spec c 57343); cbn [andb];
    try discriminate.
  all: destruct (N.ltb_spec c 65536).
  all: try (intros H'; apply some_eq in H'; subst b; cbn [List.app];
            rewrite decode_3 by div_lia; do 2 f_equal; div_lia).
  all: destruct (N.leb_spec c 1114111); try discriminate.
  all: intros H'; apply some_eq in H'; subst b; cbn [List.app];
       rewrite decode_4 by div_lia; do 2 f_equal; div_lia.
Qed.

(** X3.  What [str.encode()] produces, [bytes.decode()] reads back: a
    candidate handed the encoded input and echoing it returns the input. *)
Theorem utf8_round_trip (s : str) (b : bytes) :
  utf8_encode s = Some b -> utf8_decode b = Some s.
Proof.
  revert b; induction s as [|c s IH]; intros b; simpl.
  - intros H; injection H as <-; reflexivity.
  - destruct (utf8_encode_char c) as [bc|] eqn:Ec; [|discriminate].
    destruct (utf8_encode s) as [bs|]; [|discriminate].
    intros H; injection H as <-.
    rewrite (utf8_decode_char c bc bs Ec), (IH bs eq_refl). reflexivity.
Qed.

Lemma utf8_round_trip_witness :
  utf8_decode [72; 195; 169; 226; 130; 172; 240; 159; 152; 128]
  = Some [72; 233; 8364; 128512].
Proof. apply (utf8_round_trip [72; 233; 8364; 128512]). reflexivity. Defined.

(** ** Arguments, build and loader *)

Lemma bind_fst {A B} (m : M A) (f : A -> M B) :
  fst (bind m f)
  = fst m ++ match snd m with Ret a => fst (f a) | _ => [] end.
Proof.
  destruct m as [t [a|c|e]]; simpl; rewrite ?app_nil_r; try reflexivity.
  destruct (f a); reflexivity.
Qed.

Lemma bind_snd {A B} (m : M A) (f : A -> M B) :
  snd (bind m f)
  = match snd m with
    | Ret a => snd (f a)
    | SysExit c => SysExit c
    | Raise e => Raise e
    end.
Proof.
  destruct m as [t [a|c|e]]; simpl; try reflexivity.
  destruct (f a); reflexivity.
Qed.

Lemma truthy_opt_some (o : option string) :
  truthy_opt o = true -> exists p, o = Some p /\ p <> EmptyString.
Proof.
  destruct o as [p|]; simpl; [|discriminate].
  destruct (String.eqb_spec p EmptyString); [discriminate|].
  intros _; exists p; auto.
Qed.


(** The text-pair fields of the globals it sets. *)
Lemma parse_args_text_pair w a t g :
  parse_args w a = (t, Ret g) ->
  truthy_opt (a_txt_input a) = truthy_opt (a_txt_output a)
  /\ TXT_INPUT_FILE g = a_txt_input a /\ TXT_OUTPUT_FILE g = a_txt_output a
  /\ (TC_FILE g = None -> truthy_opt (a_txt_input a) = true).
Proof.
  unfold parse_args. destruct (exists_ w (a_source a)); [|discriminate].
  destruct (truthy_opt (a_txt_input a)), (truthy_opt (a_txt_output a));
    simpl; try discriminate; intros H; injection H as <- <-; simpl;
    repeat split; auto; discriminate.
Qed.



(** X5.  After [parse_args], the loader leaves through [sys.exit] exactly in
    the listed cases (archive missing, a text file missing, counts that
    differ), and always with status 1; its own check that both text paths are
    present can no longer fail. *)
Theorem loader_exits_iff_fatal w a t g :
  parse_args w a = (t, Ret g) ->
  ((exists c, snd (load_testcases w g) = SysExit c) <-> fatal_load w g)
  /\ (forall c, snd (load_testcases w g) = SysExit c -> c = 1%Z)
  /\ (TC_FILE g = None ->
      exists tin tout,
        TXT_INPUT_FILE g = Some tin /\ TXT_OUTPUT_FILE g = Some tout
        /\ tin <> EmptyString /\ tout <> EmptyString).
Proof.
  intros Hparse.
  destruct (parse_args_text_pair w a t g Hparse) as (Hsame & Hin & Hout & Htc).
  assert (Hpair : TC_FILE g = None ->
                  exists tin tout,
                    TXT_INPUT_FILE g = Some tin /\ TXT_OUTPUT_FILE g = Some tout
                    /\ tin <> EmptyString /\ tout <> EmptyString).
  { intros Hnone. apply Htc in Hnone.
    destruct (truthy_opt_some _ Hnone) as (tin & Ei & Hi).
    rewrite Hnone in Hsame. symmetry in Hsame.
    destruct (truthy_opt_some _ Hsame) as (tout & Eo & Ho).
    exists tin, tout. rewrite Hin, Hout. auto. }
  assert (Hfwd : forall c, snd (load_testcases w g) = SysExit c ->
                           fatal_load w g /\ c = 1%Z).
  { intros c. unfold load_testcases.
    destruct (TC_FILE g) as [p|] eqn:Ep.
    - destruct (exists_ w p) eqn:Ex; simpl.
      + destruct (unpack w p) as [tcs|]; simpl; [|discriminate].
        destruct (decode_entries tcs []) eqn:Ed; try discriminate.
        exfalso. revert Ed. generalize (@nil (pykey * testcase)).
        induction tcs as [|[k v] rest IH]; intros acc; simpl; [discriminate|].
        destruct (has_input v); [|apply IH].
        destruct (norm_key k); [|discriminate].
        destruct (norm_val _); [|discriminate].
        destruct (norm_val _); [|discriminate]. apply IH.
      + intros H; injection H as <-. split; [|reflexivity].
        apply (MissingArchive w g p); assumption.
    - destruct (Hpair eq_refl) as (tin & tout & Ei & Eo & Hi & Ho).
      rewrite Ei, Eo. simpl.
      destruct (String.eqb_spec tin EmptyString); [contradiction|].
      destruct (String.eqb_spec tout EmptyString); [contradiction|]. simpl.
      destruct (exists_ w tin) eqn:Exi; simpl.
      2: { intros H; injection H as <-. split; [|reflexivity].
           apply (MissingInput w g tin tout); assumption. }
      destruct (exists_ w tout) eqn:Exo; simpl.
      2: { intros H; injection H as <-. split; [|reflexivity].
           apply (MissingOutput w g tin tout); assumption. }
      destruct (read_text w tin) as [fin|] eqn:Efi; [|discriminate].
      destruct (read_text w tout) as [fout|] eqn:Efo; [|discriminate].
      destruct (Nat.eqb_spec (List.length (split_blank (strip fin)))
                  (List.length (split_blank (strip fout)))); simpl;
        [discriminate|].
      intros H; injection H as <-. split; [|reflexivity].
      apply (CountMismatch w g tin tout fin fout); assumption. }
  split; [split|split].
  - intros [c Hc]. apply (Hfwd c Hc).
  - intros Hf. exists 1%Z. rewrite (fatal_load_exits w g Hf). reflexivity.
  - intros c Hc. apply (Hfwd c Hc).
  - exact Hpair.
Qed.

Lemma loader_exits_iff_fatal_witness :
  ((exists c, snd (load_testcases (Scenario.base_world Scenario.echo)
                     Scenario.text_globals) = SysExit c)
   <-> fatal_load (Scenario.base_world Scenario.echo) Scenario.text_globals)
  /\ (forall c, snd (load_testcases (Scenario.base_world Scenario.echo)
                       Scenario.text_globals) = SysExit c -> c = 1%Z)
  /\ (TC_FILE Scenario.text_globals = None ->
      exists tin tout,
        TXT_INPUT_FILE Scenario.text_globals = Some tin
        /\ TXT_OUTPUT_FILE Scenario.text_globals = Some tout
        /\ tin <> EmptyString /\ tout <> EmptyString).
Proof.
  apply (loader_exits_iff_fatal (Scenario.base_world Scenario.echo)
           Scenario.text_args [] Scenario.text_globals).
  reflexivity.
Defined.





(** The loop only starts candidates and reports verdicts. *)
Lemma run_all_events w g items :
  forall passed e,
    In e (fst (run_all w g items passed)) ->
    match e with EvSpawn _ _ | EvVerdict _ _ => True | _ => False end.
Proof.
  induction items as [|[tcnum tc] rest IH]; intros passed e;
    [simpl; tauto|cbn [run_all]].
  intros H. apply bind_trace in H. destruct H as [H|(r & Hr & H)].
  - rewrite run_test_trace in H.
    destruct (try_run_trace w g tc) as [E|[stdin E]]; rewrite E in H.
    + destruct H.
    + destruct H as [<-|[]]. exact I.
  - apply bind_trace in H. destruct H as [[<-|[]]|([] & _ & H)]; [exact I|].
    exact (IH _ _ H).
Qed.

(** X6.  A failed build ends the run: nothing but the compiler call has
    happened, no testcase is loaded or run, and the exit status is 1. *)
Theorem failed_build_runs_nothing w g rc err :
  gxx w (SOURCE g) (EXECUTABLE g) = Some (rc, err) -> rc <> 0%Z ->
  fst (main w g) = [EvCompile (SOURCE g) (EXECUTABLE g)]
  /\ spawns (fst (main w g)) = [] /\ reported (fst (main w g)) = []
  /\ exit_code (main w g) = 1%Z
  /\ (forall msg, utf8_decode err = Some msg ->
        main w g = ([EvCompile (SOURCE g) (EXECUTABLE g)], SysExit 1%Z)).
Proof.
  intros Hgxx Hrc. apply Z.eqb_neq in Hrc.
  rewrite main_after_build, Hgxx, Hrc. unfold after, exit_code. cbn [negb].
  destruct (utf8_decode err) as [msg|]; simpl; repeat split;
    intros msg' H; discriminate H.
Qed.

Lemma failed_build_runs_nothing_witness :
  let w := {| exists_ := fun _ => true; read_text := fun _ => None;
              unpack := fun _ => None; default_tc := fun p => p;
              gxx := fun _ _ => Some (1%Z, lit "error: expected ';'");
              candidate := fun _ _ _ => LaunchError |} in
  let g := Scenario.archive_globals in
  fst (main w g) = [EvCompile (SOURCE g) (EXECUTABLE g)]
  /\ spawns (fst (main w g)) = [] /\ reported (fst (main w g)) = []
  /\ exit_code (main w g) = 1%Z
  /\ (forall msg, utf8_decode (lit "error: expected ';'") = Some msg ->
        main w g = ([EvCompile (SOURCE g) (EXECUTABLE g)], SysExit 1%Z)).
Proof.
  intros w g.
  apply (failed_build_runs_nothing w g 1%Z (lit "error: expected ';'"));
    [reflexivity|discriminate].
Defined.

(** X7.  Every run calls the compiler exactly once, before anything else,
    with the source and the output path of the arguments. *)
Theorem compiler_called_once_first w g :
  compilations (fst (main w g)) = 1%nat
  /\ exists rest,
       fst (main w g) = EvCompile (SOURCE g) (EXECUTABLE g) :: rest
       /\ forall e, In e rest ->
            match e with EvCompile _ _ => False | _ => True end.
Proof.
  assert (Hrest : exists rest,
             fst (main w g) = EvCompile (SOURCE g) (EXECUTABLE g) :: rest
             /\ forall e, In e rest ->
                  match e with EvCompile _ _ => False | _ => True end).
  { unfold main. rewrite bind_fst, compile_code_trace. cbn [List.app].
    eexists; split; [reflexivity|]. intros e He.
    destruct (snd (compile_code w g)) as [[]| |]; try destruct He.
    rewrite bind_fst, load_testcases_silent in He. cbn [List.app] in He.
    destruct (snd (load_testcases w g)) as [tcs| |]; try destruct He.
    destruct tcs as [|tc0 tcs']; [destruct He|].
    rewrite bind_fst, sorted_items_silent in He. cbn [List.app] in He.
    destruct (snd (sorted_items (tc0 :: tcs'))) as [items| |]; try destruct He.
    apply bind_trace in He. destruct He as [He|(p & _ & [<-|[]])]; [|exact I].
    apply run_all_events in He. destruct e; tauto. }
  split; [|exact Hrest].
  destruct Hrest as (rest & -> & Hno). unfold compilations. cbn [filter List.length].
  f_equal. induction rest as [|e rest IH]; [reflexivity|].
  simpl. pose proof (Hno e (or_introl eq_refl)) as He.
  destruct e; try contradiction; apply IH; intros e' H'; apply Hno; right; exact H'.
Qed.

Lemma runnable_nil_loads_nothing (tcs : archive) :
  runnable tcs = [] -> forall decoded, decode_entries tcs decoded = Ret decoded.
Proof.
  unfold runnable. induction tcs as [|[k v] rest IH]; simpl; [reflexivity|].
  destruct (has_input v); [discriminate|]. exact IH.
Qed.

(** X8.  An archive none of whose entries has an input field gives an empty
    batch: [main] returns after the build without running anything and
    without a summary, and the exit status is 0. *)
Theorem empty_batch_ends_quietly w g p tcs err :
  gxx w (SOURCE g) (EXECUTABLE g) = Some (0%Z, err) ->
  TC_FILE g = Some p -> exists_ w p = true -> unpack w p = Some tcs ->
  runnable tcs = [] ->
  main w g = ([EvCompile (SOURCE g) (EXECUTABLE g)], Ret tt)
  /\ exit_code (main w g) = 0%Z.
Proof.
  intros Hgxx Hp Hex Hun Hrun.
  assert (Hload : load_testcases w g = ([], Ret [])).
  { unfold load_testcases. rewrite Hp, Hex, Hun. simpl.
    rewrite (runnable_nil_loads_nothing tcs Hrun). reflexivity. }
  rewrite main_after_build, Hgxx, Hload. split; reflexivity.
Qed.

Lemma empty_batch_ends_quietly_witness :
  let w := Scenario.with_archive (Scenario.base_world Scenario.echo)
             [(KStr (lit "meta"), [(KStr (lit "note"), VStr (lit "x"))])] in
  let g := Scenario.archive_globals in
  main w g = ([EvCompile (SOURCE g) (EXECUTABLE g)], Ret tt)
  /\ exit_code (main w g) = 0%Z.
Proof.
  intros w g.
  apply (empty_batch_ends_quietly w g "/home/u/testcases/sol.tc"%string
           [(KStr (lit "meta"), [(KStr (lit "note"), VStr (lit "x"))])] []);
    reflexivity.
Defined.



(** ** The text-pair loader *)

Lemma numbered_cons (i : nat) (c : str * str) (rest : list (str * str)) :
  numbered i (c :: rest)
  = (KStr (str_of_nat i),
     {| tc_input := FStr (strip (fst c)); tc_output := FStr (strip (snd c)) |})
    :: numbered (S i) rest.
Proof. reflexivity. Qed.

(** The numbering loop appends the numbered cases when the keys already
    present are the numbers below [i]. *)
Lemma number_cases_numbered (cases : list (str * str)) :
  forall i tcs,
    (forall k, In k (map fst tcs) ->
               exists j, (j < i)%nat /\ k = KStr (str_of_nat j)) ->
    number_cases i cases tcs = tcs ++ numbered i cases.
Proof.
  induction cases as [|[inp out] rest IH]; intros i tcs Hold.
  - unfold numbered. simpl. rewrite app_nil_r. reflexivity.
  - rewrite numbered_cons. cbn [number_cases fst snd].
    rewrite dict_set_fresh.
    + rewrite IH.
      * rewrite <- app_assoc. reflexivity.
      * intros k Hk. rewrite map_app in Hk. apply in_app_iff in Hk.
        destruct Hk as [Hk|[<-|[]]].
        -- destruct (Hold k Hk) as (j & Hj & ->). exists j; split; [lia|reflexivity].
        -- exists i; split; [lia|reflexivity].
    + intros Hin. destruct (Hold _ Hin) as (j & Hj & E).
      injection E as E. apply str_of_nat_inj in E. lia.
Qed.

Lemma numbered_length (i : nat) (cases : list (str * str)) :
  List.length (numbered i cases) = List.length cases.
Proof.
  unfold numbered. rewrite length_map, length_combine, length_seq. lia.
Qed.

(** X10.  The text-pair loader pairs the blocks by position: the testcases
    are the blocks of the two stripped files, each stripped, numbered
    ["1"], ["2"], ... in the order of the files, one per block; there is
    always at least one. *)
Theorem text_pair_loader_pairs_blocks w g t tcs :
  TC_FILE g = None -> load_testcases w g = (t, Ret tcs) ->
  exists tin tout fin fout,
    TXT_INPUT_FILE g = Some tin /\ TXT_OUTPUT_FILE g = Some tout
    /\ read_text w tin = Some fin /\ read_text w tout = Some fout
    /\ List.length (split_blank (strip fin))
       = List.length (split_blank (strip fout))
    /\ tcs = numbered 1 (combine (split_blank (strip fin))
                           (split_blank (strip fout)))
    /\ List.length tcs = List.length (split_blank (strip fin))
    /\ tcs <> [].
Proof.
  unfold load_testcases. intros ->.
  destruct (TXT_INPUT_FILE g) as [tin|] eqn:Ei; [|discriminate].
  destruct (TXT_OUTPUT_FILE g) as [tout|] eqn:Eo; [|discriminate].
  destruct (negb (truthy_opt (Some tin)) || negb (truthy_opt (Some tout)));
    [discriminate|].
  destruct (negb (exists_ w tin)); [discriminate|].
  destruct (negb (exists_ w tout)); [discriminate|].
  destruct (read_text w tin) as [fin|] eqn:Efi; [|discriminate].
  destruct (read_text w tout) as [fout|] eqn:Efo; [|discriminate].
  destruct (Nat.eqb_spec (List.length (split_blank (strip fin)))
              (List.length (split_blank (strip fout)))) as [Hlen|];
    [|discriminate].
  cbn [negb]. intros H; injection H as <- <-.
  exists tin, tout, fin, fout.
  rewrite (number_cases_numbered _ 1 []) by (intros k []).
  cbn [List.app].
  assert (Hn : List.length
                 (numbered 1 (combine (split_blank (strip fin))
                                (split_blank (strip fout))))
               = List.length (split_blank (strip fin))).
  { rewrite numbered_length, length_combine. lia. }
  do 2 (split; [reflexivity|]). split; [exact Efi|]. split; [exact Efo|].
  split; [exact Hlen|]. split; [reflexivity|]. split; [exact Hn|].
  intros E. rewrite E in Hn. simpl in Hn.
  pose proof (split_blank_nonempty (strip fin)).
  destruct (split_blank (strip fin)); [contradiction|discriminate].
Qed.

Lemma text_pair_loader_pairs_blocks_witness :
  let w := Scenario.with_text_pair (Scenario.base_world Scenario.echo)
             [] [] in
  exists tin tout fin fout,
    TXT_INPUT_FILE Scenario.text_globals = Some tin
    /\ TXT_OUTPUT_FILE Scenario.text_globals = Some tout
    /\ read_text w tin = Some fin /\ read_text w tout = Some fout
    /\ List.length (split_blank (strip fin))
       = List.length (split_blank (strip fout))
    /\ [(KStr (lit "1"), {| tc_input := FStr []; tc_output := FStr [] |})]
       = numbered 1 (combine (split_blank (strip fin))
                       (split_blank (strip fout)))
    /\ List.length
         [(KStr (lit "1"), {| tc_input := FStr []; tc_output := FStr [] |})]
       = List.length (split_blank (strip fin))
    /\ [(KStr (lit "1"), {| tc_input := FStr []; tc_output := FStr [] |})]
       <> [].
Proof.
  intros w.
  apply (text_pair_loader_pairs_blocks w Scenario.text_globals []);
    reflexivity.
Defined.



(** ** Results of [run_test] *)

Lemma strip_strip (s : str) : strip (strip s) = strip s.
Proof.
  unfold strip. destruct (lstrip_head s) as [->|(c & r & -> & Hc)]; [reflexivity|].
  destruct (rstrip_head c r Hc) as [r' E].
  rewrite E. simpl lstrip. rewrite Hc, <- E. apply rstrip_idem.
Qed.

Lemma try_run_output w g tc t a :
  try_run w g tc = (t, Ret a) ->
  at_output a = [] \/ exists o, at_output a = strip o.
Proof.
  unfold try_run.
  destruct (tc_input tc) as [| |s];
    try (intros H; injection H as <- <-; left; reflexivity).
  destruct (utf8_encode s) as [stdin|];
    [|intros H; injection H as <- <-; left; reflexivity].
  intros H; injection H as <- <-.
  destruct (candidate _ _ _ _) as [rc out err| |]; try (left; reflexivity).
  destruct (utf8_decode out) as [o|]; [right; exists o|left]; reflexivity.
Qed.

Lemma runtime_error_handling_cause a t c :
  runtime_error_handling a = (t, Ret c) ->
  c = at_cause a \/ (c = RE /\ at_cause a = NoCause).
Proof.
  unfold runtime_error_handling.
  destruct (at_proc a) as [[rc err]|], (at_cause a);
    try (intros H; injection H as <- <-; left; reflexivity).
  destruct (negb (rc =? 0)%Z); [|intros H; injection H as <- <-; auto].
  destruct (utf8_decode err); [|discriminate].
  intros H; injection H as <- <-. right; auto.
Qed.

(** What a returned result is made of. *)
Lemma run_test_ret_inv w g tcnum tc t r :
  run_test w g tcnum tc = (t, Ret r) ->
  exists a e c t',
    try_run w g tc = (t, Ret a) /\ tc_output tc = FStr e
    /\ runtime_error_handling a = (t', Ret c)
    /\ r = {| r_verdict := if str_eqb (at_output a) (strip e) then AC else WA;
              r_cause := c;
              r_output := at_output a;
              r_expected := strip e |}.
Proof.
  intros H. destruct (try_run_returns w g tc) as (t0 & a & Htry).
  destruct (tc_output tc) as [| |e] eqn:He.
  1,2: unfold run_test, expected_of in H; rewrite Htry, He in H;
       simpl in H; discriminate H.
  rewrite (run_test_unfold w g tcnum tc t0 a e Htry He) in H.
  pose proof (runtime_error_handling_silent a) as Hs.
  destruct (runtime_error_handling a) as [t' [c| |]] eqn:Ereh;
    simpl in Hs; subst t'; unfold after in H; simpl in H; try discriminate H.
  rewrite app_nil_r in H. injection H as <- <-.
  exists a, e, c, []. auto.
Qed.

(** X12.  In every result of [run_test] the verdict agrees with the two
    recorded strings: it is [AC] exactly when [output] equals [expected].
    Both strings are stripped, [expected] is the stripped expected output of
    the testcase, and [output] is empty whenever the cause is [TLE] or
    [ERR]. *)
Theorem result_verdict_matches_strings w g tcnum tc t r :
  run_test w g tcnum tc = (t, Ret r) ->
  (r_verdict r = AC <-> r_output r = r_expected r)
  /\ (r_verdict r = WA <-> r_output r <> r_expected r)
  /\ (exists e, tc_output tc = FStr e /\ r_expected r = strip e)
  /\ strip (r_output r) = r_output r
  /\ strip (r_expected r) = r_expected r
  /\ (r_cause r = TLE \/ r_cause r = ERR -> r_output r = []).
Proof.
  intros H.
  destruct (run_test_ret_inv w g tcnum tc t r H)
    as (a & e & c & t' & Htry & He & Hreh & ->).
  cbn [r_verdict r_cause r_output r_expected].
  split; [apply verdict_AC_iff|]. split; [apply verdict_WA_iff|].
  split; [exists e; auto|]. split.
  - destruct (try_run_output w g tc t a Htry) as [->|[o ->]];
      [reflexivity|apply strip_strip].
  - split; [apply strip_strip|].
    intros Hc. apply (try_run_cause_output w g tc t a Htry).
    destruct (runtime_error_handling_cause a t' c Hreh) as [->|[-> _]].
    + destruct Hc as [E|E]; rewrite E; discriminate.
    + destruct Hc; discriminate.
Qed.

Lemma result_verdict_matches_strings_witness :
  let r := {| r_verdict := WA; r_cause := NoCause;
              r_output := lit "7"; r_expected := lit "8" |} in
  (r_verdict r = AC <-> r_output r = r_expected r)
  /\ (r_verdict r = WA <-> r_output r <> r_expected r)
  /\ (exists e, tc_output (Scenario.tc_of "7" " 8") = FStr e
                /\ r_expected r = strip e)
  /\ strip (r_output r) = r_output r
  /\ strip (r_expected r) = r_expected r
  /\ (r_cause r = TLE \/ r_cause r = ERR -> r_output r = []).
Proof.
  intros r.
  apply (result_verdict_matches_strings (Scenario.base_world Scenario.echo)
           Scenario.archive_globals (KStr (lit "1")) (Scenario.tc_of "7" " 8")
           [EvSpawn "./temp/main"%string (lit "7")] r).
  reflexivity.
Defined.

(** X13.  The cause of a result tells what happened to the candidate: no
    cause, it ran to exit code 0; [RE], it ran to a non-zero exit code (in
    both cases its output was UTF-8 and is the recorded output, stripped);
    [TLE], the wait ran into the time limit; [ERR], the input was not text
    that can be encoded, the start failed, or the output was not UTF-8
    (whatever the exit code). *)
Theorem result_cause_is_sound w g tcnum tc t r :
  run_test w g tcnum tc = (t, Ret r) ->
  match r_cause r with
  | NoCause =>
      exists i stdin out err o,
        tc_input tc = FStr i /\ utf8_encode i = Some stdin
        /\ candidate w (EXECUTABLE g) (TIME_LIMIT g) stdin = Completed 0 out err
        /\ utf8_decode out = Some o /\ r_output r = strip o
  | RE =>
      exists i stdin rc out err o,
        tc_input tc = FStr i /\ utf8_encode i = Some stdin
        /\ candidate w (EXECUTABLE g) (TIME_LIMIT g) stdin = Completed rc out err
        /\ rc <> 0%Z /\ utf8_decode out = Some o /\ r_output r = strip o
  | TLE =>
      exists i stdin,
        tc_input tc = FStr i /\ utf8_encode i = Some stdin
        /\ candidate w (EXECUTABLE g) (TIME_LIMIT g) stdin = TimeoutExpired
  | ERR =>
      (forall i, tc_input tc = FStr i -> utf8_encode i = None)
      \/ exists i stdin,
           tc_input tc = FStr i /\ utf8_encode i = Some stdin
           /\ (candidate w (EXECUTABLE g) (TIME_LIMIT g) stdin = LaunchError
               \/ exists rc out err,
                    candidate w (EXECUTABLE g) (TIME_LIMIT g) stdin
                    = Completed rc out err
                    /\ utf8_decode out = None)
  end.
Proof.
  intros H.
  destruct (run_test_ret_inv w g tcnum tc t r H)
    as (a & e & c & t' & Htry & He & Hreh & ->).
  cbn [r_cause r_output]. clear H He.
  revert Htry Hreh. unfold try_run, runtime_error_handling.
  destruct (tc_input tc) as [| |i] eqn:Ei.
  1,2: intros Ha; injection Ha as <- <-; cbn [at_proc at_cause];
       intros Hc; injection Hc as <- <-; left; intros i Hi; discriminate Hi.
  destruct (utf8_encode i) as [stdin|] eqn:Es.
  2: { intros Ha; injection Ha as <- <-; cbn [at_proc at_cause].
       intros Hc; injection Hc as <- <-. left. intros i' Hi.
       injection Hi as <-. exact Es. }
  intros Ha; injection Ha as <- <-.
  destruct (candidate w (EXECUTABLE g) (TIME_LIMIT g) stdin)
    as [rc out err| |] eqn:Ec.
  - destruct (utf8_decode out) as [o|] eqn:Eo; cbn [at_proc at_cause at_output].
    + destruct (Z.eqb_spec rc 0) as [->|Hrc]; cbn [negb].
      * intros Hc; injection Hc as <- <-.
        exists i, stdin, out, err, o. auto.
      * destruct (utf8_decode err); [|discriminate].
        intros Hc; injection Hc as <- <-.
        exists i, stdin, rc, out, err, o. auto 10.
    + intros Hc; injection Hc as <- <-. right.
      exists i, stdin. split; [reflexivity|]. split; [exact Es|]. right.
      exists rc, out, err. auto.
  - cbn [at_proc at_cause]. intros Hc; injection Hc as <- <-.
    exists i, stdin. auto.
  - cbn [at_proc at_cause]. intros Hc; injection Hc as <- <-. right.
    exists i, stdin. auto.
Qed.

Lemma result_cause_is_sound_witness :
  exists i stdin rc out err o,
    tc_input (Scenario.tc_of "1" "ok") = FStr i /\ utf8_encode i = Some stdin
    /\ candidate (Scenario.base_world Scenario.prints_ok_then_crashes)
         (EXECUTABLE Scenario.archive_globals)
         (TIME_LIMIT Scenario.archive_globals) stdin = Completed rc out err
    /\ rc <> 0%Z /\ utf8_decode out = Some o /\ lit "ok" = strip o.
Proof.
  apply (result_cause_is_sound
           (Scenario.base_world Scenario.prints_ok_then_crashes)
           Scenario.archive_globals (KStr (lit "1")) (Scenario.tc_of "1" "ok")
           [EvSpawn "./temp/main"%string (lit "1")]
           {| r_verdict := AC; r_cause := RE;
              r_output := lit "ok"; r_expected := lit "ok" |}).
  reflexivity.
Defined.

(** ** The loop of [main] *)


Lemma reported_app (t1 t2 : list event) :
  reported (t1 ++ t2) = reported t1 ++ reported t2.
Proof. apply flat_map_app. Qed.

(** The trace of one testcase: at most one start of the candidate, on the
    encoded input. *)
Lemma run_test_spawns w g tcnum tc :
  reported (fst (run_test w g tcnum tc)) = []
  /\ (spawns (fst (run_test w g tcnum tc)) = []
      \/ exists i stdin,
           tc_input tc = FStr i /\ utf8_encode i = Some stdin
           /\ spawns (fst (run_test w g tcnum tc)) = [stdin]).
Proof.
  rewrite run_test_trace. unfold try_run.
  destruct (tc_input tc) as [| |i] eqn:Ei; try (split; [|left]; reflexivity).
  destruct (utf8_encode i) as [stdin|] eqn:Es; [|split; [|left]; reflexivity].
  split; [reflexivity|]. right. exists i, stdin. auto.
Qed.

(** The trace of the loop, one testcase further. *)
Lemma run_all_cons_fst w g tcnum tc rest passed :
  fst (run_all w g ((tcnum, tc) :: rest) passed)
  = fst (run_test w g tcnum tc)
    ++ match snd (run_test w g tcnum tc) with
       | Ret r =>
           EvVerdict tcnum (r_verdict r)
           :: fst (run_all w g rest (count (r_verdict r) passed))
       | _ => []
       end.
Proof.
  cbn [run_all]. rewrite bind_fst.
  destruct (snd (run_test w g tcnum tc)) as [r| |]; try reflexivity.
  rewrite bind_fst. reflexivity.
Qed.

Lemma run_all_cons_snd w g tcnum tc rest passed :
  snd (run_all w g ((tcnum, tc) :: rest) passed)
  = match snd (run_test w g tcnum tc) with
    | Ret r => snd (run_all w g rest (count (r_verdict r) passed))
    | SysExit c => SysExit c
    | Raise e => Raise e
    end.
Proof.
  cbn [run_all]. rewrite bind_snd.
  destruct (snd (run_test w g tcnum tc)) as [r| |]; try reflexivity.
  rewrite bind_snd. reflexivity.
Qed.

(** The loop reports a prefix of its testcases, in order, and all of them
    when it returns. *)
Lemma run_all_reported w g items :
  forall passed,
    exists rest,
      map fst items = reported (fst (run_all w g items passed)) ++ rest
      /\ (forall p, snd (run_all w g items passed) = Ret p -> rest = []).
Proof.
  induction items as [|[tcnum tc] items IH]; intros passed.
  - exists []. split; [reflexivity|auto].
  - rewrite run_all_cons_fst, run_all_cons_snd, reported_app.
    rewrite (proj1 (run_test_spawns w g tcnum tc)). cbn [List.app map fst].
    destruct (snd (run_test w g tcnum tc)) as [r| |].
    + destruct (IH (count (r_verdict r) passed)) as (rest & E & Hret).
      exists rest. split; [|exact Hret].
      change (reported (EvVerdict tcnum (r_verdict r) :: ?l))
        with (tcnum :: reported l).
      rewrite E. reflexivity.
    + exists (tcnum :: map fst items). split; [reflexivity|discriminate].
    + exists (tcnum :: map fst items). split; [reflexivity|discriminate].
Qed.


(** The trace of [main] after the build. *)
Lemma main_trace w g :
  fst (main w g) = [EvCompile (SOURCE g) (EXECUTABLE g)]
  \/ exists tcs,
       snd (load_testcases w g) = Ret tcs
       /\ fst (main w g)
          = EvCompile (SOURCE g) (EXECUTABLE g)
            :: fst (run_all w g (ItemSort.sort tcs) 0)
            ++ match snd (run_all w g (ItemSort.sort tcs) 0) with
               | Ret p =>
                   [EvSummary (summary_status p (List.length tcs)) p
                      (List.length tcs)]
               | _ => []
               end
       /\ snd (main w g)
          = match snd (run_all w g (ItemSort.sort tcs) 0) with
            | Ret _ => Ret tt
            | SysExit c => SysExit c
            | Raise e => Raise e
            end.
Proof.
  unfold main. rewrite bind_fst, bind_snd, compile_code_trace. cbn [List.app].
  destruct (snd (compile_code w g)) as [[]| |]; auto.
  rewrite bind_fst, bind_snd, load_testcases_silent. cbn [List.app].
  destruct (snd (load_testcases w g)) as [tcs| |]; auto.
  destruct tcs as [|tc0 tcs']; auto.
  rewrite bind_fst, bind_snd. unfold sorted_items.
  destruct (homogeneous (tc0 :: tcs')); auto.
  cbn [fst snd ret List.app]. right. exists (tc0 :: tcs').
  split; [reflexivity|]. rewrite bind_fst, bind_snd.
  destruct (snd (run_all w g (ItemSort.sort (tc0 :: tcs')) 0)); auto.
Qed.



(** X15.  Testcases are reported in the order of [sorted], each at most
    once: the identifiers reported in a run are a prefix of the sorted
    identifiers of the loaded batch, and all of them when a non-empty batch
    is run to the end. *)
Theorem reports_follow_sorted_order w g tcs :
  snd (load_testcases w g) = Ret tcs ->
  exists rest,
    map fst (ItemSort.sort tcs) = reported (fst (main w g)) ++ rest
    /\ (forall st passed total,
          In (EvSummary st passed total) (fst (main w g)) -> rest = []).
Proof.
  intros Hload.
  destruct (main_trace w g) as [->|(tcs' & Hl & -> & _)].
  - exists (map fst (ItemSort.sort tcs)). split; [reflexivity|].
    intros st p n [H|[]]; discriminate H.
  - rewrite Hload in Hl. injection Hl as <-.
    change (reported (EvCompile ?a ?b :: ?l)) with (reported l).
    rewrite reported_app.
    destruct (run_all_reported w g (ItemSort.sort tcs) 0) as (rest & E & Hret).
    exists rest.
    destruct (snd (run_all w g (ItemSort.sort tcs) 0)) as [p| |] eqn:Er;
      cbn [reported flat_map List.app]; rewrite app_nil_r.
    + split; [exact E|]. intros _ _ _ _. apply (Hret p eq_refl).
    + split; [exact E|]. intros st q n [H|H]; [discriminate H|].
      rewrite app_nil_r in H. apply run_all_no_summary in H. discriminate H.
    + split; [exact E|]. intros st q n [H|H]; [discriminate H|].
      rewrite app_nil_r in H. apply run_all_no_summary in H. discriminate H.
Qed.

Lemma reports_follow_sorted_order_witness :
  let w := Scenario.with_archive (Scenario.base_world Scenario.echo)
             Scenario.archive_mixed in
  let g := Scenario.archive_globals in
  let tcs := [(KStr (lit "1"), Scenario.tc_of "7" "7");
              (KStr (lit "2"), Scenario.tc_of "8" "9")] in
  exists rest,
    map fst (ItemSort.sort tcs) = reported (fst (main w g)) ++ rest
    /\ (forall st passed total,
          In (EvSummary st passed total) (fst (main w g)) -> rest = []).
Proof.
  intros w g tcs.
  apply (reports_follow_sorted_order w g tcs). reflexivity.
Defined.

Lemma kind_eqb_eq (a b : key_kind) : kind_eqb a b = true <-> a = b.
Proof. destruct a, b; simpl; split; intros H; try discriminate H; reflexivity. Qed.

Lemma homogeneous_kinds (tcs : testcases) :
  homogeneous tcs = true ->
  forall x y, In x tcs -> In y tcs -> kind_of (fst x) = kind_of (fst y).
Proof.
  destruct tcs as [|[k tc] rest]; simpl; [intros _ x y []|].
  intros H. rewrite forallb_forall in H.
  assert (Hk : forall x, (k, tc) = x \/ In x rest -> kind_of (fst x) = kind_of k).
  { intros x [<-|Hx]; [reflexivity|]. apply kind_eqb_eq, H, Hx. }
  intros x y Hx Hy. rewrite (Hk x Hx), (Hk y Hy). reflexivity.
Qed.

(** X16.  A batch whose identifiers are not all of one kind (text and
    integers in one archive) cannot be sorted: after the build, [main] ends
    with [TypeError] before any testcase is run, with exit status 1. *)
Theorem mixed_identifiers_abort_run w g tcs err k1 tc1 k2 tc2 :
  gxx w (SOURCE g) (EXECUTABLE g) = Some (0%Z, err) ->
  load_testcases w g = ([], Ret tcs) ->
  In (k1, tc1) tcs -> In (k2, tc2) tcs -> kind_of k1 <> kind_of k2 ->
  main w g = ([EvCompile (SOURCE g) (EXECUTABLE g)], Raise TypeError)
  /\ exit_code (main w g) = 1%Z.
Proof.
  intros Hgxx Hload H1 H2 Hne.
  assert (Hhom : homogeneous tcs = false).
  { destruct (homogeneous tcs) eqn:E; [|reflexivity].
    contradiction Hne. exact (homogeneous_kinds tcs E _ _ H1 H2). }
  rewrite main_after_build, Hgxx, Hload.
  destruct tcs as [|tc0 tcs']; [destruct H1|].
  change (negb (0 =? 0)%Z) with false. cbn [bind ret].
  unfold sorted_items. rewrite Hhom. split; reflexivity.
Qed.

Lemma mixed_identifiers_abort_run_witness :
  let w := Scenario.with_archive (Scenario.base_world Scenario.echo)
             [(KInt 1, [(KStr k_input, VStr (lit "7")); (KStr k_output, VStr (lit "7"))]);
              (KStr (lit "a"), [(KStr k_input, VStr (lit "8")); (KStr k_output, VStr (lit "8"))])] in
  let g := Scenario.archive_globals in
  main w g = ([EvCompile (SOURCE g) (EXECUTABLE g)], Raise TypeError)
  /\ exit_code (main w g) = 1%Z.
Proof.
  intros w g.
  apply (mixed_identifiers_abort_run w g
           [(KInt 1, Scenario.tc_of "7" "7"); (KStr (lit "a"), Scenario.tc_of "8" "8")]
           [] (KInt 1) (Scenario.tc_of "7" "7")
           (KStr (lit "a")) (Scenario.tc_of "8" "8"));
    try reflexivity; simpl; auto; discriminate.
Defined.



(** ** The archive loader on any archive *)

Lemma dict_has_in {V} (k : pykey) (d : dict pykey V) :
  dict_has k d = true <-> In k (map fst d).
Proof.
  induction d as [|[k' v] d IH]; simpl; [split; [discriminate|tauto]|].
  rewrite orb_true_iff, IH, key_eqb_eq. split; intros [H|H]; auto.
Qed.

Lemma dict_set_keys {V} (k : pykey) (v : V) (d : dict pykey V) :
  map fst (dict_set k v d)
  = if dict_has k d then map fst d else map fst d ++ [k].
Proof.
  induction d as [|[k' v'] d IH]; simpl; [reflexivity|].
  destruct (key_eqb k k') eqn:E; simpl; [reflexivity|].
  rewrite IH. destruct (dict_has k d); reflexivity.
Qed.

(** Lookup after assignment. *)
Lemma dict_find_set {V} (k k' : pykey) (v : V) (d : dict pykey V) :
  dict_find k' (dict_set k v d)
  = if key_eqb k' k then Some v else dict_find k' d.
Proof.
  induction d as [|[k0 v0] d IH]; simpl; [reflexivity|].
  destruct (key_eqb k k0) eqn:E; simpl.
  - apply key_eqb_eq in E. subst k0. destruct (key_eqb k' k); reflexivity.
  - rewrite IH. destruct (key_eqb k' k0) eqn:E0; [|reflexivity].
    apply key_eqb_eq in E0. subst k0.
    destruct (key_eqb k' k) eqn:E1; [|reflexivity].
    apply key_eqb_eq in E1. subst k'.
    rewrite (proj2 (key_eqb_eq k k) eq_refl) in E. discriminate E.
Qed.

Lemma norm_key_not_bytes (k key : pykey) :
  norm_key k = Some key -> kind_of key <> IsBytes /\ norm_id k = key.
Proof.
  unfold norm_id. destruct k as [s|b|z]; simpl.
  - intros H; injection H as <-. split; [discriminate|reflexivity].
  - destruct (utf8_decode b); simpl; [|discriminate].
    intros H; injection H as <-. split; [discriminate|reflexivity].
  - intros H; injection H as <-. split; [discriminate|reflexivity].
Qed.

(** One turn of the loader's loop that does not raise. *)
Lemma decode_entries_step k v rest decoded loaded :
  decode_entries ((k, v) :: rest) decoded = Ret loaded ->
  (has_input v = false /\ decode_entries rest decoded = Ret loaded)
  \/ exists tc,
       has_input v = true /\ kind_of (norm_id k) <> IsBytes
       /\ entry_case v = Some tc
       /\ decode_entries rest (dict_set (norm_id k) tc decoded) = Ret loaded.
Proof.
  simpl. destruct (has_input v); [|left; auto].
  destruct (norm_key k) as [key|] eqn:Ek; [|discriminate].
  destruct (norm_key_not_bytes k key Ek) as [Hkind ->].
  unfold entry_case.
  destruct (norm_val _) as [i|]; [|discriminate].
  destruct (norm_val _) as [o|]; [|discriminate].
  intros H. right. eexists. auto.
Qed.

Lemma decode_entries_invariants (tcs : archive) :
  forall decoded loaded,
    decode_entries tcs decoded = Ret loaded ->
    (NoDup (map fst decoded) -> NoDup (map fst loaded))
    /\ (forall key,
          In key (map fst loaded)
          <-> In key (map fst decoded)
              \/ exists e, In e (runnable tcs) /\ norm_id (fst e) = key)
    /\ (List.length loaded
        <= List.length decoded + List.length (runnable tcs))%nat
    /\ ((forall key, In key (map fst decoded) -> kind_of key <> IsBytes) ->
        forall key, In key (map fst loaded) -> kind_of key <> IsBytes)
    /\ forall key,
         dict_find key loaded
         = match last_write key tcs with
           | Some v => entry_case v
           | None => dict_find key decoded
           end.
Proof.
  induction tcs as [|[k v] rest IH]; intros decoded loaded H.
  - injection H as <-. simpl. repeat split; auto; try tauto; try lia.
    intros [H|(e & [] & _)]; exact H.
  - apply decode_entries_step in H.
    unfold runnable in *. cbn [filter snd last_write].
    destruct H as [[Hno H]|(tc & Hyes & Hkind & Hcase & H)].
    + rewrite Hno. cbn [andb]. destruct (IH _ _ H) as (I1 & I2 & I3 & I4 & I5).
      split; [exact I1|]. split; [exact I2|]. split; [exact I3|].
      split; [exact I4|].
      intros key. rewrite I5. destruct (last_write key rest); reflexivity.
    + rewrite Hyes. cbn [andb map fst List.length].
      destruct (IH _ _ H) as (I1 & I2 & I3 & I4 & I5).
      pose proof (dict_set_keys (norm_id k) tc decoded) as Hkeys.
      pose proof (dict_has_in (norm_id k) decoded) as Hhas.
      split; [|split; [|split; [|split]]].
      * intros Hnd. apply I1. rewrite Hkeys.
        destruct (dict_has (norm_id k) decoded); [exact Hnd|].
        apply NoDup_app; [exact Hnd|repeat constructor; intros []|].
        intros x Hx [<-|[]]. apply Hhas in Hx. discriminate Hx.
      * intros key. rewrite I2, Hkeys. split.
        -- intros [Hin|(e & He & Hid)].
           ++ destruct (dict_has (norm_id k) decoded); [left; exact Hin|].
              apply in_app_iff in Hin. destruct Hin as [Hin|[<-|[]]];
                [left; exact Hin|].
              right. exists (k, v). split; [left; reflexivity|reflexivity].
           ++ right. exists e. split; [right; exact He|exact Hid].
        -- intros [Hin|(e & [<-|He] & Hid)].
           ++ left. destruct (dict_has (norm_id k) decoded); [exact Hin|].
              apply in_app_iff. left; exact Hin.
           ++ left. cbn [fst] in Hid. subst key.
              destruct (dict_has (norm_id k) decoded) eqn:Ed.
              ** apply Hhas. reflexivity.
              ** apply in_app_iff. right. left. reflexivity.
           ++ right. exists e. auto.
      * assert (Hlen : (List.length (dict_set (norm_id k) tc decoded)
                        <= S (List.length decoded))%nat).
        { rewrite <- !(length_map fst), Hkeys.
          destruct (dict_has (norm_id k) decoded);
            [lia|rewrite length_app; simpl; lia]. }
        lia.
      * intros Hold. apply I4. intros key Hin. rewrite Hkeys in Hin.
        destruct (dict_has (norm_id k) decoded); [exact (Hold key Hin)|].
        apply in_app_iff in Hin. destruct Hin as [Hin|[<-|[]]];
          [exact (Hold key Hin)|exact Hkind].
      * intros key. rewrite I5, dict_find_set.
        destruct (last_write key rest); [reflexivity|].
        destruct (key_eqb key (norm_id k)); [symmetry; exact Hcase|reflexivity].
Qed.

(** X18.  Whatever the archive, a batch that loads has pairwise different
    identifiers, none of them bytes; they are exactly the identifiers (as
    text) of the entries with an input field, so there are at most as many
    testcases as such entries. *)
Theorem archive_batch_has_unique_text_ids w g p tcs t loaded :
  TC_FILE g = Some p -> unpack w p = Some tcs ->
  load_testcases w g = (t, Ret loaded) ->
  NoDup (map fst loaded)
  /\ (forall key, In key (map fst loaded) -> kind_of key <> IsBytes)
  /\ (forall key,
        In key (map fst loaded)
        <-> exists e, In e tcs /\ has_input (snd e) = true
                      /\ norm_id (fst e) = key)
  /\ (List.length loaded <= List.length (runnable tcs))%nat.
Proof.
  intros Hp Hun. unfold load_testcases. rewrite Hp.
  destruct (exists_ w p); [|discriminate]. rewrite Hun. cbn [negb].
  intros H. injection H as _ H.
  destruct (decode_entries_invariants tcs [] loaded H)
    as (I1 & I2 & I3 & I4 & _).
  split; [apply I1; constructor|].
  split; [apply I4; intros key []|].
  split; [|exact I3].
  intros key. rewrite I2. unfold runnable. split.
  - intros [[]|(e & He & Hid)]. apply filter_In in He.
    exists e. tauto.
  - intros (e & He & Hin & Hid). right. exists e.
    split; [apply filter_In; auto|exact Hid].
Qed.

Lemma archive_batch_has_unique_text_ids_witness :
  let loaded := [(KStr (lit "1"),
                  {| tc_input := FStr (lit "8"); tc_output := FStr (lit "8") |})] in
  NoDup (map fst loaded)
  /\ (forall key, In key (map fst loaded) -> kind_of key <> IsBytes)
  /\ (forall key,
        In key (map fst loaded)
        <-> exists e, In e Scenario.archive_twice /\ has_input (snd e) = true
                      /\ norm_id (fst e) = key)
  /\ (List.length loaded <= List.length (runnable Scenario.archive_twice))%nat.
Proof.
  intros loaded.
  apply (archive_batch_has_unique_text_ids
           (Scenario.with_archive (Scenario.base_world Scenario.echo)
              Scenario.archive_twice) Scenario.archive_globals
           "/home/u/testcases/sol.tc"%string Scenario.archive_twice []);
    reflexivity.
Defined.

(** X19.  Entries with the same identifier overwrite each other, the last
    one wins: the testcase stored under an identifier is built from the last
    entry of the archive that has an input field and that identifier (as text
    or as bytes); identifiers without such an entry are absent. *)
Theorem archive_last_entry_wins w g p tcs t loaded :
  TC_FILE g = Some p -> unpack w p = Some tcs ->
  load_testcases w g = (t, Ret loaded) ->
  forall key,
    dict_find key loaded
    = match last_write key tcs with
      | Some v => entry_case v
      | None => None
      end.
Proof.
  intros Hp Hun. unfold load_testcases. rewrite Hp.
  destruct (exists_ w p); [|discriminate]. rewrite Hun. cbn [negb].
  intros H. injection H as _ H.
  destruct (decode_entries_invariants tcs [] loaded H) as (_ & _ & _ & _ & I5).
  exact I5.
Qed.

Lemma archive_last_entry_wins_witness :
  dict_find (KStr (lit "1"))
    [(KStr (lit "1"),
      {| tc_input := FStr (lit "8"); tc_output := FStr (lit "8") |})]
  = match last_write (KStr (lit "1")) Scenario.archive_twice with
    | Some v => entry_case v
    | None => None
    end.
Proof.
  refine (archive_last_entry_wins
            (Scenario.with_archive (Scenario.base_world Scenario.echo)
               Scenario.archive_twice) Scenario.archive_globals
            "/home/u/testcases/sol.tc"%string Scenario.archive_twice [] _
            _ _ _ (KStr (lit "1")));
    reflexivity.
Defined.

Lemma runtime_error_handling_raise a e :
  snd (runtime_error_handling a) = Raise e -> e = UnicodeDecodeError.
Proof.
  unfold runtime_error_handling.
  destruct (at_proc a) as [[rc err]|], (at_cause a); try discriminate.
  destruct (negb (rc =? 0)%Z); [|discriminate].
  destruct (utf8_decode err); [discriminate|].
  intros H; injection H; auto.
Qed.

(** X20.  Testcases of a text pair are text on both sides, already stripped:
    stripping the expected output again in [run_test] changes nothing, the
    recorded [expected] is the stored output, and [run_test] cannot fail with
    [AttributeError] on them. *)
Theorem text_pair_cases_are_stripped_text w g t tcs tcnum tc :
  TC_FILE g = None -> load_testcases w g = (t, Ret tcs) ->
  In (tcnum, tc) tcs ->
  exists i e,
    tc = {| tc_input := FStr i; tc_output := FStr e |}
    /\ strip i = i /\ strip e = e
    /\ (forall t' r, run_test w g tcnum tc = (t', Ret r) -> r_expected r = e)
    /\ snd (run_test w g tcnum tc) <> Raise AttributeError.
Proof.
  intros Hg Hl Hin.
  destruct (load_text_pair_inv w g t tcs Hg Hl) as [cases ->].
  rewrite (number_cases_numbered _ 1 []) in Hin by (intros k []).
  cbn [List.app] in Hin. unfold numbered in Hin.
  apply in_map_iff in Hin. destruct Hin as ([j [inp out]] & E & _).
  cbn [fst snd] in E. injection E as _ <-.
  exists (strip inp), (strip out).
  split; [reflexivity|]. split; [apply strip_strip|].
  split; [apply strip_strip|]. split.
  - intros t' r Hr.
    destruct (run_test_ret_inv _ _ _ _ _ _ Hr) as (a & e & c & t0 & _ & He & _ & ->).
    cbn [tc_output r_expected] in *. injection He as <-. apply strip_strip.
  - destruct (try_run_returns w g
                {| tc_input := FStr (strip inp); tc_output := FStr (strip out) |})
      as (t0 & a & Htry).
    rewrite (run_test_unfold _ _ _ _ _ _ _ Htry eq_refl).
    unfold after. cbn [snd]. rewrite bind_snd.
    destruct (snd (runtime_error_handling a)) as [c| |e] eqn:Er; try discriminate.
    apply runtime_error_handling_raise in Er. subst e. discriminate.
Qed.

Lemma text_pair_cases_are_stripped_text_witness :
  let w := Scenario.with_text_pair (Scenario.base_world Scenario.echo)
             [97; 10; 10; 32; 98; 10] [97; 10; 10; 98; 32] in
  let tc := {| tc_input := FStr [98]; tc_output := FStr [98] |} in
  exists i e,
    tc = {| tc_input := FStr i; tc_output := FStr e |}
    /\ strip i = i /\ strip e = e
    /\ (forall t' r,
          run_test w Scenario.text_globals (KStr (lit "2")) tc = (t', Ret r) ->
          r_expected r = e)
    /\ snd (run_test w Scenario.text_globals (KStr (lit "2")) tc)
       <> Raise AttributeError.
Proof.
  intros w tc.
  apply (text_pair_cases_are_stripped_text w Scenario.text_globals []
           [(KStr (lit "1"), {| tc_input := FStr [97]; tc_output := FStr [97] |});
            (KStr (lit "2"), tc)]);
    [reflexivity|reflexivity|right; left; reflexivity].
Defined.




